(** * earthquake-map: the report parser and the acquisition chain

    A shallow embedding of [src/app/services/earthquake-service.ts]: the
    client-side service (listing lines 1-204) and the server-side actions
    module that the same listing carries (lines 205-506).

    - [JS]: the string and array built-ins the code calls, over UTF-16
      code units.
    - [Num]: the Number values the parser produces ([parseFloat]) and
      prints into the [id] ([Number::toString]).
    - [Client], [Server]: the two parsers.
    - [Acquisition]: the client-side fallback chain over an arbitrary
      transport.
    - [ServerActions], [Route], [Page]: the server-side fetch, the relay
      endpoint of [src/app/api/proxy/route.ts], and the cycle, countdown
      and colour scales of [src/app/page.tsx] and
      [src/components/earthquake-map.tsx]. *)

From Stdlib Require Import Ascii String.
From Stdlib Require Import List NArith ZArith Lia Bool.
From Stdlib Require Decimal DecimalN.
Import ListNotations.

(* ===================================================================== *)
(** * JavaScript strings *)
(* ===================================================================== *)

Module JS.

(** A string is a sequence of UTF-16 code units. *)
Definition jsstring := list N.

(** ASCII literals of the source, as code units. *)
Fixpoint lit (s : string) : jsstring :=
  match s with
  | EmptyString => []
  | String c s' => N_of_ascii c :: lit s'
  end.

Definition LF : N := 10%N.
Definition SPACE : N := 32%N.
Definition UNDERSCORE : N := 95%N.

(** ECMAScript WhiteSpace and LineTerminator: what [trim] strips and what
    [\s] matches. *)
Definition isWhiteSpace (c : N) : bool :=
  ((9 <=? c) && (c <=? 13) || (c =? 32) || (c =? 160) || (c =? 5760)
   || (8192 <=? c) && (c <=? 8202) || (c =? 8232) || (c =? 8233)
   || (c =? 8239) || (c =? 8287) || (c =? 12288) || (c =? 65279))%N.

(** [\d]: the ASCII digits. *)
Definition isDigit (c : N) : bool := ((48 <=? c) && (c <=? 57))%N.

Fixpoint takeWhile (p : N -> bool) (s : jsstring) : jsstring :=
  match s with
  | c :: s' => if p c then c :: takeWhile p s' else []
  | [] => []
  end.

Fixpoint dropWhile (p : N -> bool) (s : jsstring) : jsstring :=
  match s with
  | c :: s' => if p c then dropWhile p s' else s
  | [] => []
  end.

Definition trimStart (s : jsstring) : jsstring := dropWhile isWhiteSpace s.
Definition trimEnd (s : jsstring) : jsstring := rev (dropWhile isWhiteSpace (rev s)).

(** [String.prototype.trim] *)
Definition trim (s : jsstring) : jsstring := trimEnd (trimStart s).

Definition eqb (s t : jsstring) : bool :=
  if list_eq_dec N.eq_dec s t then true else false.

(** [s.startsWith(p)] *)
Fixpoint startsWith (p s : jsstring) : bool :=
  match p, s with
  | [], _ => true
  | _ :: _, [] => false
  | a :: p', b :: s' => (a =? b)%N && startsWith p' s'
  end.

(** [s.includes(p)] *)
Fixpoint includes (p s : jsstring) : bool :=
  startsWith p s ||
  match s with
  | [] => false
  | _ :: s' => includes p s'
  end.

Fixpoint indexOf_from (p s : jsstring) (i : Z) : Z :=
  if startsWith p s then i
  else match s with
       | [] => (-1)%Z
       | _ :: s' => indexOf_from p s' (i + 1)%Z
       end.

(** [s.indexOf(p)]: the first position of [p], or -1. *)
Definition indexOf (p s : jsstring) : Z := indexOf_from p s 0%Z.

(** [s.substring(start)]: a negative start counts as 0, one past the end
    gives the empty string. *)
Definition substring (start : Z) (s : jsstring) : jsstring :=
  skipn (Z.to_nat start) s.

(** [s.split(sep)] for a one-unit separator; the empty string gives [[""]]. *)
Fixpoint split_on (sep : N) (s : jsstring) : list jsstring :=
  match s with
  | [] => [[]]
  | c :: s' =>
      if (c =? sep)%N then [] :: split_on sep s'
      else match split_on sep s' with
           | l :: ls => (c :: l) :: ls
           | [] => [[c]]
           end
  end.

(** [s.split(/\s+/)]: the head of the result is the token being read;
    [in_sep] says that the previous unit belonged to a separator run. *)
Fixpoint split_ws_from (in_sep : bool) (s : jsstring) : list jsstring :=
  match s with
  | [] => [[]]
  | c :: s' =>
      if isWhiteSpace c then
        if in_sep then split_ws_from true s' else [] :: split_ws_from true s'
      else match split_ws_from false s' with
           | l :: ls => (c :: l) :: ls
           | [] => [[c]]
           end
  end.

Definition split_ws (s : jsstring) : list jsstring := split_ws_from false s.

(** [a.join(sep)] *)
Fixpoint join (sep : jsstring) (a : list jsstring) : jsstring :=
  match a with
  | [] => []
  | [x] => x
  | x :: rest => x ++ sep ++ join sep rest
  end.

(** [a.slice(start, end)] with the relative-index rules of the language. *)
Definition slice {A} (start stop : Z) (a : list A) : list A :=
  let len := Z.of_nat (length a) in
  let k := if (start <? 0)%Z then Z.max (len + start) 0 else Z.min start len in
  let final := if (stop <? 0)%Z then Z.max (len + stop) 0 else Z.min stop len in
  firstn (Z.to_nat (final - k)) (skipn (Z.to_nat k) a).

(** [a[i]]; the callers below index only under a length guard, the
    default stands for [undefined]. *)
Definition at_ (a : list jsstring) (i : nat) : jsstring := nth i a [].

(** ** The regular expressions of the source *)

(** Exactly [n] digits at the start: the rest after them. *)
Fixpoint digits_prefix (n : nat) (s : jsstring) : option jsstring :=
  match n with
  | O => Some s
  | S n' => match s with
            | c :: s' => if isDigit c then digits_prefix n' s' else None
            | [] => None
            end
  end.

Definition unit_prefix (u : N) (s : jsstring) : option jsstring :=
  match s with
  | c :: s' => if (c =? u)%N then Some s' else None
  | [] => None
  end.

Definition and_then {A B} (o : option A) (f : A -> option B) : option B :=
  match o with Some a => f a | None => None end.

(** [\d{4}\.\d{2}\.\d{2}] anchored at the start. *)
Definition date_prefix (s : jsstring) : option jsstring :=
  and_then (digits_prefix 4 s) (fun r =>
  and_then (unit_prefix 46 r) (fun r =>
  and_then (digits_prefix 2 r) (fun r =>
  and_then (unit_prefix 46 r) (fun r =>
  digits_prefix 2 r)))).

(** [\d{2}:\d{2}:\d{2}] anchored at the start. *)
Definition time_prefix (s : jsstring) : option jsstring :=
  and_then (digits_prefix 2 s) (fun r =>
  and_then (unit_prefix 58 r) (fun r =>
  and_then (digits_prefix 2 r) (fun r =>
  and_then (unit_prefix 58 r) (fun r =>
  digits_prefix 2 r)))).

Definition is_some {A} (o : option A) : bool :=
  match o with Some _ => true | None => false end.

(** [datePattern.test(s)]: the pattern matches somewhere in [s]. *)
Fixpoint datePattern_test (s : jsstring) : bool :=
  is_some (date_prefix s) ||
  match s with
  | [] => false
  | _ :: s' => datePattern_test s'
  end.

(** [s.match(datePattern)]: the text [match[0]] of the leftmost match. *)
Fixpoint datePattern_match (s : jsstring) : option jsstring :=
  if is_some (date_prefix s) then Some (firstn 10 s)
  else match s with
       | [] => None
       | _ :: s' => datePattern_match s'
       end.

(** [/^\d{4}\.\d{2}\.\d{2}\s+\d{2}:\d{2}:\d{2}/.test(s)] *)
Definition dateTimeStart_test (s : jsstring) : bool :=
  match date_prefix s with
  | Some (c :: r) =>
      isWhiteSpace c && is_some (time_prefix (dropWhile isWhiteSpace r))
  | _ => false
  end.

(** [s.match(/[-]+/)]: index and text of the leftmost, longest run. *)
Fixpoint separator_match_from (s : jsstring) (i : Z) : option (Z * jsstring) :=
  match s with
  | [] => None
  | c :: s' =>
      if (c =? 45)%N then Some (i, takeWhile (N.eqb 45) s)
      else separator_match_from s' (i + 1)%Z
  end.

Definition separator_match (s : jsstring) : option (Z * jsstring) :=
  separator_match_from s 0%Z.

End JS.

Import JS.

(* ===================================================================== *)
(** * Number values *)
(* ===================================================================== *)

Module Num.

(** [Finite neg ds n] is the decimal with the digit string [ds] (most
    significant first, no leading and no trailing zero) and the point
    after its [n]-th digit: with [k] the length of [ds] and [s] its value,
    the number [s * 10^(n-k)], the triple [s], [k], [n] of
    [Number::toString]. Zero is [Finite neg [] 0].

    A Number is kept as the decimal it was read from: the rounding to
    binary64 is not modelled. The two agree on decimals of at most 15
    significant digits within the binary64 range, which covers the
    columns of the report (four decimals for the coordinates, one for
    depth and magnitudes). *)
Inductive number :=
| NaN
| Infinity (neg : bool)
| Finite (neg : bool) (ds : jsstring) (n : Z).

Definition isNaN (x : number) : bool :=
  match x with NaN => true | _ => false end.

Definition isZeroDigit (c : N) : bool := (c =? 48)%N.

Fixpoint strip_leading (ds : jsstring) (n : Z) : jsstring * Z :=
  match ds with
  | c :: r => if isZeroDigit c then strip_leading r (n - 1)%Z else (ds, n)
  | [] => ([], n)
  end.

Definition strip_trailing (ds : jsstring) : jsstring :=
  rev (dropWhile isZeroDigit (rev ds)).

(** The canonical form of the digits [ds] with the point after the
    [n]-th. *)
Definition normalise (neg : bool) (ds : jsstring) (n : Z) : number :=
  let (ds1, n1) := strip_leading ds n in
  match strip_trailing ds1 with
  | [] => Finite neg [] 0
  | ds2 => Finite neg ds2 n1
  end.

Definition read_sign (s : jsstring) : bool * jsstring :=
  match s with
  | c :: r => if (c =? 45)%N then (true, r)
              else if (c =? 43)%N then (false, r) else (false, s)
  | [] => (false, [])
  end.

Fixpoint chars_uint (s : jsstring) : Decimal.uint :=
  match s with
  | [] => Decimal.Nil
  | c :: r =>
      let u := chars_uint r in
      if (c =? 48)%N then Decimal.D0 u else if (c =? 49)%N then Decimal.D1 u
      else if (c =? 50)%N then Decimal.D2 u else if (c =? 51)%N then Decimal.D3 u
      else if (c =? 52)%N then Decimal.D4 u else if (c =? 53)%N then Decimal.D5 u
      else if (c =? 54)%N then Decimal.D6 u else if (c =? 55)%N then Decimal.D7 u
      else if (c =? 56)%N then Decimal.D8 u else Decimal.D9 u
  end.

Fixpoint uint_chars (u : Decimal.uint) : jsstring :=
  match u with
  | Decimal.Nil => []
  | Decimal.D0 u => 48%N :: uint_chars u | Decimal.D1 u => 49%N :: uint_chars u
  | Decimal.D2 u => 50%N :: uint_chars u | Decimal.D3 u => 51%N :: uint_chars u
  | Decimal.D4 u => 52%N :: uint_chars u | Decimal.D5 u => 53%N :: uint_chars u
  | Decimal.D6 u => 54%N :: uint_chars u | Decimal.D7 u => 55%N :: uint_chars u
  | Decimal.D8 u => 56%N :: uint_chars u | Decimal.D9 u => 57%N :: uint_chars u
  end.

(** The value of a digit string, and the decimal digits of a natural
    number. *)
Definition digits_value (ds : jsstring) : N := N.of_uint (chars_uint ds).
Definition decimal (v : N) : jsstring := uint_chars (N.to_uint v).

(** The optional ExponentPart: [e] or [E], an optional sign and at least
    one digit; anything else is no exponent. *)
Definition read_exponent (s : jsstring) : Z :=
  match s with
  | c :: r =>
      if ((c =? 101) || (c =? 69))%N then
        let (neg, r') := read_sign r in
        match takeWhile isDigit r' with
        | [] => 0%Z
        | ds => let v := Z.of_N (digits_value ds) in if neg then (- v)%Z else v
        end
      else 0%Z
  | [] => 0%Z
  end.

(** The longest prefix that is a StrUnsignedDecimalLiteral, read as the
    number of sign [neg]; [NaN] when there is none. *)
Definition parse_unsigned (neg : bool) (r : jsstring) : number :=
  if startsWith (lit "Infinity") r then Infinity neg
  else
    let int := takeWhile isDigit r in
    let r1 := dropWhile isDigit r in
    let (frac, r2) :=
      match r1 with
      | c :: r' => if (c =? 46)%N then (takeWhile isDigit r', dropWhile isDigit r')
                   else ([], r1)
      | [] => ([], [])
      end in
    match int ++ frac with
    | [] => NaN
    | ds => normalise neg ds (Z.of_nat (length int) + read_exponent r2)
    end.

(** [parseFloat(s)]: the longest prefix of the left-trimmed string that
    is a StrDecimalLiteral, [NaN] when there is none. *)
Definition parseFloat (s : jsstring) : number :=
  let (neg, r) := read_sign (trimStart s) in
  parse_unsigned neg r.

(** The digits [ds] with the point after the [n]-th, as
    [Number::toString] writes a positive number: plain digits, digits
    with a point, a fraction behind "0.", or the exponent form. *)
Definition print_digits (ds : jsstring) (n : Z) : jsstring :=
  let k := Z.of_nat (length ds) in
  if ((k <=? n) && (n <=? 21))%Z then
    ds ++ repeat 48%N (Z.to_nat (n - k))
  else if ((0 <? n) && (n <=? 21))%Z then
    firstn (Z.to_nat n) ds ++ lit "." ++ skipn (Z.to_nat n) ds
  else if ((-6 <? n) && (n <=? 0))%Z then
    lit "0" ++ lit "." ++ repeat 48%N (Z.to_nat (- n)) ++ ds
  else
    let e := (n - 1)%Z in
    match ds with
    | [d] =>
        [d] ++ lit "e" ++ (if (e <? 0)%Z then lit "-" else lit "+")
            ++ decimal (Z.abs_N e)
    | d :: rest =>
        [d] ++ lit "." ++ rest
            ++ lit "e" ++ (if (e <? 0)%Z then lit "-" else lit "+")
            ++ decimal (Z.abs_N e)
    | [] => []
    end.

(** [Number::toString(x)] in radix 10. *)
Definition toString (x : number) : jsstring :=
  match x with
  | NaN => lit "NaN"
  | Infinity neg => if neg then lit "-Infinity" else lit "Infinity"
  | Finite _ [] _ => lit "0"
  | Finite neg ds n => (if neg then lit "-" else []) ++ print_digits ds n
  end.

(** Equality of Number values as the language's SameValueZero: [NaN] is
    itself, the two zeros are one value. *)
Definition same_value (x y : number) : Prop :=
  x = y \/ exists a b, x = Finite a [] 0 /\ y = Finite b [] 0.

(** The number with the sign of a zero dropped: what reading "0" gives. *)
Definition unsigned_zero (x : number) : number :=
  match x with
  | Finite _ [] _ => Finite false [] 0
  | _ => x
  end.

(** The shape of the values [parseFloat] returns: digits only, neither a
    leading nor a trailing zero, and one representation of zero per
    sign. *)
Definition canonical (x : number) : Prop :=
  match x with
  | Finite _ [] n => n = 0%Z
  | Finite _ ds _ =>
      Forall (fun c => isDigit c = true) ds
      /\ (exists d rest, ds = d :: rest /\ isZeroDigit d = false)
      /\ (exists init z, ds = init ++ [z] /\ isZeroDigit z = false)
  | _ => True
  end.

End Num.

Import Num.

(** The numbers on which the decimal kept here and the binary64 value of
    the code are the same number and print alike: at most 15 significant
    digits and a magnitude from 1e-301 up to, not including, 1e300. [NaN],
    the infinities and the zeros are the same in both. *)
Definition short_decimal (x : number) : bool :=
  match x with
  | Finite _ ds n => (length ds <=? 15)%nat && (-300 <=? n)%Z && (n <=? 300)%Z
  | _ => true
  end.

(* ===================================================================== *)
(** * The record *)
(* ===================================================================== *)

(** [type Earthquake] *)
Record Earthquake := {
  date : jsstring;
  time : jsstring;
  latitude : number;
  longitude : number;
  depth : number;
  magnitudeMD : option number;
  magnitudeML : option number;
  magnitudeMw : option number;
  location : jsstring;
  solutionQuality : jsstring;
  id : jsstring
}.

(** [parts[i] === "-.-" ? null : parseFloat(parts[i])] *)
Definition magnitude (tok : jsstring) : option number :=
  if JS.eqb tok (lit "-.-") then None else Some (parseFloat tok).

(** The template literal [`${date}_${time}_${latitude}_${longitude}`]. *)
Definition make_id (date time : jsstring) (latitude longitude : number) : jsstring :=
  date ++ lit "_" ++ time ++ lit "_" ++ toString latitude ++ lit "_" ++ toString longitude.

(** [datePattern.test(line) && line.includes("-.-")] *)
Definition candidate (line : jsstring) : bool :=
  datePattern_test line && includes (lit "-.-") line.

(** [line.trim().length > 0] *)
Definition nonblank (line : jsstring) : bool :=
  (0 <? length (trim line))%nat.

(** [rawText.split('\n').filter(nonblank).filter(candidate)], the
    selection every scan of the two parsers ends in. *)
Definition candidate_lines (text : jsstring) : list jsstring :=
  filter candidate (filter nonblank (split_on LF text)).

(* ===================================================================== *)
(** * The client-side parser (listing lines 117-204) *)
(* ===================================================================== *)

Module Client.

(** The callback of [lines.forEach] up to the [push]: [None] is the early
    [return]. Under the guard on [parts.length] every index is in range
    and [parseFloat] has no failing case, so the [catch] of the callback
    has nothing to catch. *)
Definition line_record (line : jsstring) : option Earthquake :=
  let parts := split_ws (trim line) in
  if (length parts <? 10)%nat then None
  else
    let date := at_ parts 0 in
    let time := at_ parts 1 in
    let latitude := parseFloat (at_ parts 2) in
    let longitude := parseFloat (at_ parts 3) in
    let depth := parseFloat (at_ parts 4) in
    let magnitudeMD := magnitude (at_ parts 5) in
    let magnitudeML := magnitude (at_ parts 6) in
    let magnitudeMw := magnitude (at_ parts 7) in
    let solutionQuality := trim (at_ parts (length parts - 1)) in
    let locationStart := 8%Z in
    let locationEnd := (Z.of_nat (length parts) - 2)%Z in
    let locationEnd :=
      if startsWith (lit "REVIZE") solutionQuality
         && startsWith (lit "(") (at_ parts (length parts - 2))
      then (locationEnd - 1)%Z else locationEnd in
    let location :=
      trim (join (lit " ") (slice locationStart (locationEnd + 1) parts)) in
    let id := make_id date time latitude longitude in
    Some {| date := date; time := time; latitude := latitude;
            longitude := longitude; depth := depth;
            magnitudeMD := magnitudeMD; magnitudeML := magnitudeML;
            magnitudeMw := magnitudeMw; location := location;
            solutionQuality := solutionQuality; id := id |}.

(** One turn of [forEach] on the array [earthquakes]. *)
Definition forEach_step (earthquakes : list Earthquake) (line : jsstring)
  : list Earthquake :=
  match line_record line with
  | Some r => earthquakes ++ [r]
  | None => earthquakes
  end.

(** [parseEarthquakeData(rawText)] *)
Definition parseEarthquakeData (rawText : jsstring) : list Earthquake :=
  let lines := candidate_lines rawText in
  if (length lines =? 0)%nat then []
  else fold_left forEach_step lines [].

End Client.

(* ===================================================================== *)
(** * The server-side parser (listing lines 306-506) *)
(* ===================================================================== *)

Module Server.

(** The callback of [dataLines.forEach] up to the [push]. *)
Definition line_record (line : jsstring) : option Earthquake :=
  if negb (dateTimeStart_test line) then None
  else
    let parts := split_ws (trim line) in
    if (length parts <? 10)%nat then None
    else
      let date := at_ parts 0 in
      let time := at_ parts 1 in
      let latitude := parseFloat (at_ parts 2) in
      let longitude := parseFloat (at_ parts 3) in
      let depth := parseFloat (at_ parts 4) in
      let magnitudeMD := magnitude (at_ parts 5) in
      let magnitudeML := magnitude (at_ parts 6) in
      let magnitudeMw := magnitude (at_ parts 7) in
      let locationStart := 8%Z in
      let locationEnd := (Z.of_nat (length parts) - 1)%Z in
      let solutionQuality := trim (at_ parts (Z.to_nat locationEnd)) in
      let locationEnd :=
        if startsWith (lit "REVIZE") solutionQuality
           && startsWith (lit "(") (at_ parts (Z.to_nat (locationEnd - 1)))
        then (locationEnd - 2)%Z else locationEnd in
      let location :=
        trim (join (lit " ") (slice locationStart (locationEnd + 1) parts)) in
      let id := make_id date time latitude longitude in
      Some {| date := date; time := time; latitude := latitude;
              longitude := longitude; depth := depth;
              magnitudeMD := magnitudeMD; magnitudeML := magnitudeML;
              magnitudeMw := magnitudeMw; location := location;
              solutionQuality := solutionQuality; id := id |}.

Definition forEach_step (parsedData : list Earthquake) (line : jsstring)
  : list Earthquake :=
  match line_record line with
  | Some r => parsedData ++ [r]
  | None => parsedData
  end.

(** [dataSection.split("\n").map(trim).filter(line => line.length > 0)] *)
Definition dataLines (dataSection : jsstring) : list jsstring :=
  filter (fun line => (0 <? length line)%nat)
         (map trim (split_on LF dataSection)).

(** [parseEarthquakeLines(dataSection)] *)
Definition parseEarthquakeLines (dataSection : jsstring) : list Earthquake :=
  fold_left forEach_step (dataLines dataSection) [].

Definition headerText : jsstring :=
  lit "Tarih      Saat      Enlem(N)  Boylam(E) Derinlik(km)  MD   ML   Mw    Yer".

(** The last title carries U+00DC, U+0130 and U+00C7. *)
Definition alternateHeaders : list jsstring :=
  [ lit "Tarih";
    lit "Date";
    lit "TURKIYE VE YAKIN CEVRESINDEKI SON DEPREMLER";
    lit "T" ++ [220%N] ++ lit "RK" ++ [304%N] ++ lit "YE VE YAKIN "
      ++ [199%N] ++ lit "EVRES" ++ [304%N] ++ lit "NDEK" ++ [304%N]
      ++ lit " SON DEPREMLER" ].

(** The loop over [alternateHeaders]: [Some] is a [return] from inside
    the loop, [None] falls out of it. *)
Fixpoint alternate_scan (rawText : jsstring) (headers : list jsstring)
  : option (list Earthquake) :=
  match headers with
  | [] => None
  | headerText :: rest =>
      let index := indexOf headerText rawText in
      if (index =? -1)%Z then alternate_scan rawText rest
      else
        let afterHeader := substring index rawText in
        match datePattern_match afterHeader with
        | Some match0 =>
            let startIndex := (indexOf match0 afterHeader + index)%Z in
            let dataSection := substring startIndex rawText in
            let earthquakeLines := candidate_lines dataSection in
            if (0 <? length earthquakeLines)%nat
            then Some (parseEarthquakeLines (join [LF] earthquakeLines))
            else alternate_scan rawText rest
        | None => alternate_scan rawText rest
        end
  end.

(** [parseEarthquakeData(rawText)]. A string is truthy when it is not
    empty. *)
Definition parseEarthquakeData (rawText : jsstring) : list Earthquake :=
  let dateLine := find candidate (split_on LF rawText) in
  if match dateLine with Some l => (0 <? length l)%nat | None => false end then
    let earthquakeLines := candidate_lines rawText in
    parseEarthquakeLines (join [LF] earthquakeLines)
  else
    let headerIndex := indexOf headerText rawText in
    if (headerIndex =? -1)%Z then
      match alternate_scan rawText alternateHeaders with
      | Some result => result
      | None => []
      end
    else
      let afterHeader :=
        substring (headerIndex + Z.of_nat (length headerText)) rawText in
      match separator_match afterHeader with
      | None => []
      | Some (index, match0) =>
          let separatorIndex := if (index =? 0)%Z then 0%Z else index in
          let afterSeparator :=
            substring (separatorIndex + Z.of_nat (length match0)) afterHeader in
          let earthquakeLines := candidate_lines afterSeparator in
          if (0 <? length earthquakeLines)%nat
          then parseEarthquakeLines (join [LF] earthquakeLines)
          else []
      end.

End Server.

(* ===================================================================== *)
(** * The client-side acquisition chain (listing lines 4-115) *)
(* ===================================================================== *)

Module Acquisition.

(** The three URLs the service requests. *)
Inductive endpoint :=
| KoeriDirect       (* http://www.koeri.boun.edu.tr/scripts/lst9.asp *)
| LocalProxy        (* /api/proxy *)
| PublicCorsProxy.  (* https://corsproxy.io/?<encoded KOERI url> *)

(** How an awaited operation completes. *)
Inductive completion (A : Type) :=
| Normal (a : A)
| Thrown.
Arguments Normal {A} a.
Arguments Thrown {A}.

(** What the code reads of a [Response]: its status and the outcome of
    [response.text()]. *)
Record response := {
  status : N;
  text : completion jsstring
}.

(** [response.ok] *)
Definition ok (r : response) : bool :=
  ((200 <=? status r) && (status r <=? 299))%N.

(** The requests issued so far, oldest first. *)
Definition log := list endpoint.

(** A transport answers a request knowing every request before it. *)
Definition transport := log -> endpoint -> completion response.

(** An asynchronous computation: it reads the transport, extends the log
    and completes normally or by throwing. *)
Definition io (A : Type) := transport -> log -> completion A * log.

Definition ret {A} (a : A) : io A := fun _ l => (Normal a, l).

Definition bind {A B} (m : io A) (f : A -> io B) : io B :=
  fun t l =>
    match m t l with
    | (Normal a, l') => f a t l'
    | (Thrown, l') => (Thrown, l')
    end.

(** [try { body } catch (error) { handler }] *)
Definition try_catch {A} (body handler : io A) : io A :=
  fun t l =>
    match body t l with
    | (Normal a, l') => (Normal a, l')
    | (Thrown, l') => handler t l'
    end.

(** [await fetch(url, ...)] *)
Definition fetch (e : endpoint) : io response :=
  fun t l => (t l e, l ++ [e]).

(** [await response.text()] *)
Definition await_text (r : response) : io jsstring :=
  fun _ l => (text r, l).

Notation "x <- m ;; k" := (bind m (fun x => k))
  (at level 61, m at next level, right associativity).

Section Chain.

(** The bundled dataset of [@/app/data/fallback-data], whose module the
    listing does not carry. *)
Variable fallbackEarthquakeData : list Earthquake.

(** Each function returns inside its [try] either a value or the promise
    of the next stage; [try_catch] guards the choice, the chosen promise
    is then adopted outside the guard, as [return f()] without [await]
    does. *)
Definition fetchWithPublicProxy : io (list Earthquake) :=
  next <- try_catch
    (response <- fetch PublicCorsProxy ;;
     if negb (ok response) then ret (ret fallbackEarthquakeData)
     else
       text <- await_text response ;;
       let earthquakes := Client.parseEarthquakeData text in
       if (length earthquakes =? 0)%nat then ret (ret fallbackEarthquakeData)
       else ret (ret earthquakes))
    (ret (ret fallbackEarthquakeData)) ;;
  next.

Definition fetchWithProxy : io (list Earthquake) :=
  next <- try_catch
    (response <- fetch LocalProxy ;;
     if negb (ok response) then ret fetchWithPublicProxy
     else
       text <- await_text response ;;
       let earthquakes := Client.parseEarthquakeData text in
       if (length earthquakes =? 0)%nat then ret fetchWithPublicProxy
       else ret (ret earthquakes))
    (ret fetchWithPublicProxy) ;;
  next.

Definition fetchEarthquakeData : io (list Earthquake) :=
  next <- try_catch
    (response <- fetch KoeriDirect ;;
     if negb (ok response) then ret fetchWithProxy
     else
       text <- await_text response ;;
       let earthquakes := Client.parseEarthquakeData text in
       if (length earthquakes =? 0)%nat then ret fetchWithProxy
       else ret (ret earthquakes))
    (ret fetchWithProxy) ;;
  next.

(** A stage produced usable data: the request completed with an ok
    status, the body was read and at least one record parsed from it. *)
Definition usable (c : completion response) : option (list Earthquake) :=
  match c with
  | Normal r =>
      if ok r then
        match text r with
        | Normal body =>
            match Client.parseEarthquakeData body with
            | [] => None
            | rs => Some rs
            end
        | Thrown => None
        end
      else None
  | Thrown => None
  end.

End Chain.

End Acquisition.

(* ===================================================================== *)
(** * The specification's own notions *)
(* ===================================================================== *)

(** The report locator as section 4.1 of the specification words it, to
    be compared with the two parsers above. *)
Module Locator.

(** "Apply the candidate predicate to every line in the whole text." *)
Definition direct_scan (text : jsstring) : list jsstring :=
  filter candidate (split_on LF text).

(** "An exact column-header line, or any of several title strings." *)
Definition known_headers : list jsstring :=
  Server.headerText :: Server.alternateHeaders.

(** The position of the first known header that occurs in the text. *)
Fixpoint first_header_match (headers : list jsstring) (text : jsstring)
  : option Z :=
  match headers with
  | [] => None
  | h :: rest =>
      let i := indexOf h text in
      if (i =? -1)%Z then first_header_match rest text else Some i
  end.

(** The position of the first date-pattern occurrence, counted from [i]. *)
Fixpoint first_date_from (s : jsstring) (i : Z) : option Z :=
  if is_some (date_prefix s) then Some i
  else match s with
       | [] => None
       | _ :: s' => first_date_from s' (i + 1)%Z
       end.

(** "From the first header match, scan forward for the first date-pattern
    occurrence, then re-apply the direct-scan predicate to everything
    from that point to the end of the text." *)
Definition header_anchored_scan (text : jsstring) : list jsstring :=
  match first_header_match known_headers text with
  | None => []
  | Some h =>
      match first_date_from (substring h text) 0 with
      | None => []
      | Some d => direct_scan (substring (h + d) text)
      end
  end.

End Locator.

(** A token that is, as a whole, a decimal literal of the language
    (StrDecimalLiteral): the tokens the specification calls well formed. *)
Definition is_decimal_literal (s : jsstring) : bool :=
  let (_, r) := read_sign s in
  if JS.eqb r (lit "Infinity") then true
  else
    let int := takeWhile isDigit r in
    let r1 := dropWhile isDigit r in
    let (frac, r2) :=
      match r1 with
      | c :: r' => if (c =? 46)%N then (takeWhile isDigit r', dropWhile isDigit r')
                   else ([], r1)
      | [] => ([], [])
      end in
    negb (length (int ++ frac) =? 0)%nat &&
    match r2 with
    | [] => true
    | c :: r =>
        ((c =? 101) || (c =? 69))%N &&
        (let (_, r') := read_sign r in
         negb (length r' =? 0)%nat && forallb isDigit r')
    end.

(** The records a list of lines yields, one line after the other: what
    the [forEach] loops compute, without the accumulator. *)
Definition emitted (line_record : jsstring -> option Earthquake)
  (lines : list jsstring) : list Earthquake :=
  flat_map (fun line => match line_record line with
                        | Some r => [r]
                        | None => []
                        end) lines.

(** The record a list of tokens yields once the location and the quality
    code are settled: the first eight tokens in their columns. *)
Definition record_of (parts : list jsstring) (location solutionQuality : jsstring)
  : Earthquake :=
  let date := at_ parts 0 in
  let time := at_ parts 1 in
  let latitude := parseFloat (at_ parts 2) in
  let longitude := parseFloat (at_ parts 3) in
  {| date := date; time := time; latitude := latitude;
     longitude := longitude; depth := parseFloat (at_ parts 4);
     magnitudeMD := magnitude (at_ parts 5);
     magnitudeML := magnitude (at_ parts 6);
     magnitudeMw := magnitude (at_ parts 7);
     location := location; solutionQuality := solutionQuality;
     id := make_id date time latitude longitude |}.

(** ** Sample inputs *)

(** The line of the end-to-end property of section 8. *)
Definition sample_line : jsstring :=
  lit "2024.03.15 14:23:11 38.4521 27.1234 7.3 -.- 3.2 -.- SOME PLACE NAME  C".

(** The record section 8 expects for it: 38.4521 is the digits 384521
    with the point after the second, and so on. *)
Definition sample_record : Earthquake :=
  {| date := lit "2024.03.15"; time := lit "14:23:11";
     latitude := Finite false (lit "384521") 2;
     longitude := Finite false (lit "271234") 2;
     depth := Finite false (lit "73") 1;
     magnitudeMD := None;
     magnitudeML := Some (Finite false (lit "32") 1);
     magnitudeMw := None;
     location := lit "SOME PLACE NAME";
     solutionQuality := lit "C";
     id := lit "2024.03.15_14:23:11_38.4521_27.1234" |}.

(** What the server makes of the same line: the location runs on into
    the quality code. *)
Definition server_sample_record : Earthquake :=
  {| date := lit "2024.03.15"; time := lit "14:23:11";
     latitude := Finite false (lit "384521") 2;
     longitude := Finite false (lit "271234") 2;
     depth := Finite false (lit "73") 1;
     magnitudeMD := None;
     magnitudeML := Some (Finite false (lit "32") 1);
     magnitudeMw := None;
     location := lit "SOME PLACE NAME C";
     solutionQuality := lit "C";
     id := lit "2024.03.15_14:23:11_38.4521_27.1234" |}.

(** A revised entry: a parenthesised timestamp before the marker. *)
Definition revised_line : jsstring :=
  lit "2024.03.15 14:23:11 38.4521 27.1234 7.3 -.- 3.2 -.- PLACE NAME (14:00:00) REVIZE01".

(** A footnote that mentions a date and the sentinel but starts with
    neither a date nor a time. *)
Definition footnote_line : jsstring :=
  lit "Not: 2024.03.15 tarihli kayitlarda -.- buyukluk olculmedi demektir (bkz. aciklama).".

(** Two lines that put an underscore at different places of their first
    two tokens. *)
Definition underscore_lines : jsstring :=
  lit "2024.03.15_14:23:11 x 38.4521 27.1234 7.3 -.- 3.2 -.- SOME PLACE C"
  ++ [LF] ++
  lit "2024.03.15 14:23:11_x 38.4521 27.1234 7.3 -.- 3.2 -.- SOME PLACE C".

(** A line whose latitude column is not a number. *)
Definition malformed_line : jsstring :=
  lit "2024.03.15 14:23:11 abc 27.1234 7.3 -.- 3.2 -.- SOME PLACE NAME  C".

(* ===================================================================== *)
(** * The server-side acquisition (listing lines 241-304) *)
(* ===================================================================== *)

Module ServerActions.

Import Acquisition.

Section Fetch.

(** The bundled dataset, as for the client. *)
Variable fallbackEarthquakeData : list Earthquake.

(** [useFallbackData()] *)
Definition useFallbackData : list Earthquake := fallbackEarthquakeData.

(** [fetchDirectFromKoeri()]: every [return] hands back a value. *)
Definition fetchDirectFromKoeri : io (list Earthquake) :=
  try_catch
    (response <- fetch KoeriDirect ;;
     if negb (ok response) then ret useFallbackData
     else
       text <- await_text response ;;
       let earthquakes := Server.parseEarthquakeData text in
       if (length earthquakes =? 0)%nat then ret useFallbackData
       else ret earthquakes)
    (ret useFallbackData).

(** [fetchEarthquakeData()] of the actions module: the promise of
    [fetchDirectFromKoeri] is returned from inside the [try] without
    [await]. *)
Definition fetchEarthquakeData : io (list Earthquake) :=
  next <- try_catch (ret fetchDirectFromKoeri) (ret (ret useFallbackData)) ;;
  next.

End Fetch.

End ServerActions.

(* ===================================================================== *)
(** * The relay endpoint ([src/app/api/proxy/route.ts]) *)
(* ===================================================================== *)

Module Route.

Import Acquisition.

(** What the route puts into a [NextResponse]: status, body ([None] for
    [null]) and headers. *)
Record next_response := {
  r_status : N;
  r_body : option jsstring;
  r_headers : list (jsstring * jsstring)
}.

(** [throw new Error(...)] *)
Definition throw {A} : io A := fun _ l => (Thrown, l).

(** [JSON.stringify({ error: 'Failed to fetch earthquake data' })]; 34 is
    the double quote. *)
Definition error_json : jsstring :=
  lit "{" ++ [34%N] ++ lit "error" ++ [34%N] ++ lit ":" ++ [34%N]
    ++ lit "Failed to fetch earthquake data" ++ [34%N] ++ lit "}".

Definition cors_headers : list (jsstring * jsstring) :=
  [ (lit "Access-Control-Allow-Origin", lit "*");
    (lit "Access-Control-Allow-Methods", lit "GET, OPTIONS");
    (lit "Access-Control-Allow-Headers", lit "Content-Type") ].

Definition success_response (text : jsstring) : next_response :=
  {| r_status := 200;
     r_body := Some text;
     r_headers :=
       (lit "Content-Type", lit "text/html; charset=utf-8") :: cors_headers
       ++ [ (lit "Cache-Control", lit "no-cache, no-store, must-revalidate") ] |}.

Definition failure_response : next_response :=
  {| r_status := 500;
     r_body := Some error_json;
     r_headers := (lit "Content-Type", lit "application/json") :: cors_headers |}.

(** [GET()]. The test [hasEarthquakeData] only chooses what is logged. *)
Definition GET : io next_response :=
  try_catch
    (response <- fetch KoeriDirect ;;
     if negb (ok response) then throw
     else
       text <- await_text response ;;
       ret (success_response text))
    (ret failure_response).

(** [OPTIONS()] *)
Definition OPTIONS : io next_response :=
  ret {| r_status := 200; r_body := None; r_headers := cors_headers |}.

(** The [Response] a caller of the endpoint reads: the status and the
    body as text, the empty text for a [null] body. *)
Definition as_response (r : next_response) : response :=
  {| status := r_status r;
     text := Normal match r_body r with Some b => b | None => [] end |}.

(** The answer a client gets from the endpoint when the route runs over
    the transport [upstream]. *)
Definition relay (upstream : transport) (l : log) : completion response :=
  match fst (GET upstream l) with
  | Normal r => Normal (as_response r)
  | Thrown => Thrown
  end.

End Route.

(* ===================================================================== *)
(** * The page ([src/app/page.tsx]) and the map markers *)
(* ===================================================================== *)

Module Page.

Import Acquisition.

(** [AUTO_REFRESH_INTERVAL], in seconds. *)
Definition AUTO_REFRESH_INTERVAL : Z := 60.

(** The countdown is a whole number of seconds throughout: it starts at
    60 and is only decremented by one or reset. *)

(** The updater passed to [setCountdown] every second: the next count,
    and whether [getEarthquakeData] is called. *)
Definition countdown_tick (prevCount : Z) : Z * bool :=
  if (prevCount <=? 1)%Z then (AUTO_REFRESH_INTERVAL, true)
  else ((prevCount - 1)%Z, false).

(** [n] ticks of the timer from the count [c]: the count reached and the
    number of refreshes triggered on the way. *)
Fixpoint ticks (n : nat) (c : Z) : Z * nat :=
  match n with
  | O => (c, O)
  | S n' =>
      let (c', refresh) := countdown_tick c in
      let (c'', k) := ticks n' c' in
      (c'', if refresh then S k else k)
  end.

(** [Number::toString] of a whole number. *)
Definition int_toString (z : Z) : jsstring :=
  (if (z <? 0)%Z then lit "-" else []) ++ decimal (Z.abs_N z).

(** [s.padStart(targetLength, fill)] for a fill string of one unit. *)
Definition padStart (targetLength : nat) (fill : N) (s : jsstring) : jsstring :=
  repeat fill (targetLength - length s) ++ s.

(** [formatCountdown(seconds)] on whole seconds: [Math.floor] of the
    quotient and the remainder with the sign of the dividend, as the code
    computes them exactly for counts far below 2^53. *)
Definition formatCountdown (seconds : Z) : jsstring :=
  let mins := (seconds / 60)%Z in
  let secs := Z.rem seconds 60 in
  int_toString mins ++ lit ":" ++ padStart 2 48%N (int_toString secs).

(** The seconds field of [v] is two digits that read as [v]. *)
Definition two_digit_field (v : N) : bool :=
  match padStart 2 48%N (decimal v) with
  | [d1; d2] => isDigit d1 && isDigit d2 && (digits_value [d1; d2] =? v)%N
  | _ => false
  end.

Inductive source := live | fallback.

(** The state of [Home] that [getEarthquakeData] writes; [lastUpdated]
    holds the wall clock and is left out. *)
Record state := {
  earthquakes : list Earthquake;
  loading : bool;
  error : option jsstring;
  dataSource : source;
  countdown : Z
}.

(** The message of the [catch] branch; 252 is u-umlaut, 351 s-cedilla. *)
Definition error_message : jsstring :=
  lit "Deprem verilerini y" ++ [252%N] ++ lit "klerken bir hata olu" ++ [351%N]
    ++ lit "tu. L" ++ [252%N] ++ lit "tfen daha sonra tekrar deneyin.".

(** [data.length > 0 && data[0].date.startsWith("2023.05.01")] *)
Definition isFallbackData (data : list Earthquake) : bool :=
  (0 <? length data)%nat &&
  match data with
  | r :: _ => startsWith (lit "2023.05.01") (date r)
  | [] => false
  end.

Section Cycle.

Variable fallbackEarthquakeData : list Earthquake.

(** [getEarthquakeData()]: the writes of one cycle, applied to the state
    before it. The countdown is the value written when the cycle starts;
    what the interval timer writes to it while the fetch is awaited is
    not part of the cycle. *)
Definition getEarthquakeData (s : state) : io state :=
  let s := {| earthquakes := earthquakes s; loading := true; error := None;
              dataSource := dataSource s;
              countdown := AUTO_REFRESH_INTERVAL |} in
  s' <- try_catch
    (data <- Acquisition.fetchEarthquakeData fallbackEarthquakeData ;;
     ret {| earthquakes := data; loading := loading s; error := error s;
            dataSource := if isFallbackData data then fallback else live;
            countdown := countdown s |})
    (ret {| earthquakes := earthquakes s; loading := loading s;
            error := Some error_message; dataSource := dataSource s;
            countdown := countdown s |}) ;;
  ret {| earthquakes := earthquakes s'; loading := false; error := error s';
         dataSource := dataSource s'; countdown := countdown s' |}.

End Cycle.

(** ** Comparison of Number values *)

(** A finite number as a whole mantissa and a power of ten. *)
Definition mantissa (ds : jsstring) : Z := Z.of_N (digits_value ds).
Definition exponent (ds : jsstring) (n : Z) : Z := (n - Z.of_nat (length ds))%Z.

(** [x >= y]: false when either is [NaN]; finite numbers are compared
    after scaling both to the smaller power of ten. *)
Definition num_ge (x y : number) : bool :=
  match x, y with
  | NaN, _ | _, NaN => false
  | Infinity false, _ => true
  | _, Infinity true => true
  | Infinity true, _ => false
  | _, Infinity false => false
  | Finite a ds n, Finite b es m =>
      let e := Z.min (exponent ds n) (exponent es m) in
      let vx := ((if a then -1 else 1) * mantissa ds * 10 ^ (exponent ds n - e))%Z in
      let vy := ((if b then -1 else 1) * mantissa es * 10 ^ (exponent es m - e))%Z in
      (vy <=? vx)%Z
  end.

(** A number is falsy when it is [NaN] or a zero. *)
Definition truthy (x : number) : bool :=
  match x with
  | NaN => false
  | Infinity _ => true
  | Finite _ ds _ => negb (mantissa ds =? 0)%Z
  end.

(** The literals [5.0], [3.0], [2.5], [2.0] and [0]. *)
Definition five : number := Finite false (lit "5") 1.
Definition three : number := Finite false (lit "3") 1.
Definition two_and_a_half : number := Finite false (lit "25") 1.
Definition two : number := Finite false (lit "2") 1.
Definition zero : number := Finite false [] 0.

(** [getMagnitudeClass(magnitude)] of the table. *)
Definition getMagnitudeClass (magnitude : option number) : jsstring :=
  match magnitude with
  | None => []
  | Some m =>
      if negb (truthy m) then []
      else if num_ge m five then lit "text-red-600 font-bold"
      else if num_ge m three then lit "text-orange-600 font-semibold"
      else if num_ge m two then lit "text-yellow-600"
      else lit "text-green-600"
  end.

(** [getColorByMagnitude(magnitude)] of the map
    ([src/components/earthquake-map.tsx]). *)
Definition getColorByMagnitude (magnitude : number) : jsstring :=
  if num_ge magnitude three then lit "#ef4444"
  else if num_ge magnitude two_and_a_half then lit "#f97316"
  else if num_ge magnitude two then lit "#eab308"
  else lit "#22c55e".

(** [earthquake.magnitudeML || 0] *)
Definition marker_magnitude (earthquake : Earthquake) : number :=
  match magnitudeML earthquake with
  | Some m => if truthy m then m else zero
  | None => zero
  end.

(** The colour of the marker of one record. *)
Definition marker_color (earthquake : Earthquake) : jsstring :=
  getColorByMagnitude (marker_magnitude earthquake).

End Page.

(* ===================================================================== *)
(** * Properties of the string built-ins *)
(* ===================================================================== *)

Section StringFacts.

Local Abbreviation ws_free := (Forall (fun c => isWhiteSpace c = false)).
Local Abbreviation sp := (lit " ").

Lemma dropWhile_head_false (p : N -> bool) (c : N) (s : jsstring) :
  p c = false -> dropWhile p (c :: s) = c :: s.
Proof. intros H; simpl; now rewrite H. Qed.

Lemma trimEnd_snoc (s : jsstring) (c : N) :
  isWhiteSpace c = false -> trimEnd (s ++ [c]) = s ++ [c].
Proof.
  intros H. unfold trimEnd. rewrite rev_app_distr. simpl.
  rewrite H. simpl. now rewrite rev_involutive.
Qed.

(** [trim] leaves a string alone that neither starts nor ends with
    white space. *)
Lemma trim_ends (s : jsstring) :
  (exists c r, s = c :: r /\ isWhiteSpace c = false) ->
  (exists r c, s = r ++ [c] /\ isWhiteSpace c = false) ->
  trim s = s.
Proof.
  intros (c & r & -> & Hc) (r' & c' & E & Hc').
  unfold trim, trimStart. rewrite dropWhile_head_false by assumption.
  rewrite E. now apply trimEnd_snoc.
Qed.

Lemma trim_nil : trim [] = [].
Proof. reflexivity. Qed.

Lemma trim_ws_free (tok : jsstring) : ws_free tok -> trim tok = tok.
Proof.
  intros H. destruct tok as [|c r]; [reflexivity|].
  apply trim_ends.
  - exists c, r. split; [reflexivity|]. now inversion H.
  - destruct (exists_last (l := c :: r)) as (r' & c' & E); [discriminate|].
    exists r', c'. split; [assumption|].
    rewrite E in H. apply Forall_app in H as [_ H]. now inversion H.
Qed.

Lemma join_cons2 (sep x y : jsstring) (rest : list jsstring) :
  join sep (x :: y :: rest) = x ++ sep ++ join sep (y :: rest).
Proof. reflexivity. Qed.

Lemma join_first (toks : list jsstring) :
  toks <> [] -> Forall (fun t => t <> [] /\ ws_free t) toks ->
  exists c r, join sp toks = c :: r /\ isWhiteSpace c = false.
Proof.
  intros Hne H. destruct toks as [|x rest]; [congruence|].
  inversion H as [|? ? [Hx Hw] _]; subst.
  destruct x as [|c x']; [congruence|].
  exists c. inversion Hw; subst.
  destruct rest; [exists x' | eexists]; split; try eassumption; reflexivity.
Qed.

Lemma join_last (toks : list jsstring) :
  toks <> [] -> Forall (fun t => t <> [] /\ ws_free t) toks ->
  exists r c, join sp toks = r ++ [c] /\ isWhiteSpace c = false.
Proof.
  induction toks as [|x rest IH]; [congruence|].
  intros _ H. inversion H as [|? ? [Hx Hw] Hrest]; subst.
  destruct rest as [|y rest'].
  - destruct (exists_last Hx) as (r & c & ->).
    exists r, c. split; [reflexivity|].
    apply Forall_app in Hw as [_ Hw]. now inversion Hw.
  - destruct IH as (r & c & E & Hc); [discriminate | assumption |].
    rewrite join_cons2, E.
    exists (x ++ sp ++ r), c. split; [|assumption].
    now rewrite <- !app_assoc.
Qed.

(** Joining non-empty tokens without white space gives a string [trim]
    does not change. *)
Lemma trim_join (toks : list jsstring) :
  Forall (fun t => t <> [] /\ ws_free t) toks ->
  trim (join sp toks) = join sp toks.
Proof.
  intros H. destruct toks as [|x rest]; [reflexivity|].
  apply trim_ends; [apply join_first | apply join_last];
    solve [discriminate | assumption].
Qed.

(** ** Tokens of [split(/\s+/)] *)

Lemma split_ws_from_cons (b : bool) (s : jsstring) :
  exists h t, split_ws_from b s = h :: t.
Proof.
  revert b. induction s as [|c s IH]; intros b; simpl; [eauto|].
  destruct (isWhiteSpace c).
  - destruct b; [apply IH | eauto].
  - destruct (IH false) as (h & t & ->). eauto.
Qed.

(** No token carries white space. *)
Lemma split_ws_from_ws_free (b : bool) (s : jsstring) :
  Forall ws_free (split_ws_from b s).
Proof.
  revert b. induction s as [|c s IH]; intros b; simpl.
  - repeat constructor.
  - destruct (isWhiteSpace c) eqn:Hc.
    + destruct b; [apply IH | constructor; [constructor | apply IH]].
    + specialize (IH false).
      destruct (split_ws_from false s) as [|l ls]; [repeat constructor; assumption|].
      inversion IH; subst. constructor; [constructor|]; assumption.
Qed.

(** Only the first and the last token can be empty. *)
Lemma split_ws_from_inner (b : bool) (s : jsstring) :
  exists h t, split_ws_from b s = h :: t
              /\ Forall (fun tok => tok <> []) (removelast t)
              /\ (b = true -> h <> [] \/ t = []).
Proof.
  revert b. induction s as [|c s IH]; intros b; simpl.
  - exists [], []. repeat split; [constructor | now right].
  - destruct (isWhiteSpace c) eqn:Hc.
    + destruct b; [apply IH|].
      destruct (IH true) as (h & t & E & Ht & Hh). rewrite E.
      exists [], (h :: t). repeat split; [|discriminate].
      destruct (Hh eq_refl) as [Hne | ->]; [|constructor].
      destruct t; [constructor|]. constructor; assumption.
    + destruct (IH false) as (h & t & E & Ht & _). rewrite E.
      exists (c :: h), t. repeat split; [assumption|]. intros _. left. discriminate.
Qed.

(** The tokens of a line strictly between the first and the last are
    non-empty and free of white space. *)
Lemma split_ws_middle (s : jsstring) (first last : jsstring)
  (mid : list jsstring) :
  split_ws s = first :: mid ++ [last] ->
  Forall (fun t => t <> [] /\ ws_free t) mid.
Proof.
  intros E. unfold split_ws in E.
  pose proof (split_ws_from_ws_free false s) as Hw.
  destruct (split_ws_from_inner false s) as (h & t & E' & Ht & _).
  rewrite E in E'. injection E' as <- <-. rewrite E in Hw.
  rewrite removelast_last in Ht.
  inversion Hw as [|? ? _ Hw']; subst. apply Forall_app in Hw' as [Hw' _].
  apply Forall_forall. intros x Hx. split.
  - eapply Forall_forall in Ht; eassumption.
  - eapply Forall_forall in Hw'; eassumption.
Qed.

Lemma split_ws_token_ws_free (s tok : jsstring) :
  In tok (split_ws s) -> ws_free tok.
Proof.
  intros H. pose proof (split_ws_from_ws_free false s) as Hw.
  eapply Forall_forall in Hw; eassumption.
Qed.

(** ** [slice] *)

Lemma slice_prefix_range {A} (pre suf : list A) (a : nat) (start stop : Z) :
  (a <= length pre)%nat ->
  start = Z.of_nat a -> stop = Z.of_nat (length pre) ->
  slice start stop (pre ++ suf) = skipn a pre.
Proof.
  intros Ha -> ->. unfold slice. rewrite length_app.
  replace (Z.of_nat a <? 0)%Z with false by (symmetry; apply Z.ltb_ge; lia).
  replace (Z.of_nat (length pre) <? 0)%Z with false by (symmetry; apply Z.ltb_ge; lia).
  rewrite !Z.min_l by lia.
  rewrite Nat2Z.id, <- Nat2Z.inj_sub, Nat2Z.id by assumption.
  rewrite skipn_app. replace (a - length pre)%nat with 0%nat by lia.
  rewrite firstn_app, length_skipn.
  replace (length pre - a - (length pre - a))%nat with 0%nat by lia.
  simpl. rewrite app_nil_r. apply firstn_all2. rewrite length_skipn. lia.
Qed.

End StringFacts.

(* ===================================================================== *)
(** * One line, one record *)
(* ===================================================================== *)

Section LineRecord.

Local Abbreviation ws_free := (Forall (fun c => isWhiteSpace c = false)).
Local Abbreviation sp := (lit " ").

Lemma at_prefix (pre suf : list jsstring) (i : nat) :
  (i < length pre)%nat -> at_ (pre ++ suf) i = at_ pre i.
Proof. intros H. unfold at_. now apply app_nth1. Qed.

Lemma at_suffix (pre suf : list jsstring) (i j : nat) :
  i = (length pre + j)%nat -> at_ (pre ++ suf) i = at_ suf j.
Proof.
  intros ->. unfold at_. rewrite app_nth2 by lia. f_equal. lia.
Qed.

Lemma record_of_prefix (pre suf : list jsstring) (loc q : jsstring) :
  (8 <= length pre)%nat -> record_of (pre ++ suf) loc q = record_of pre loc q.
Proof.
  intros H. unfold record_of. now rewrite !at_prefix by lia.
Qed.

Lemma Forall_skipn {A} (P : A -> Prop) (n : nat) (l : list A) :
  Forall P l -> Forall P (skipn n l).
Proof.
  intros H. rewrite <- (firstn_skipn n l) in H. now apply Forall_app in H.
Qed.

(** With at least one token before and [k >= 1] tokens after, the
    location tokens are inner tokens of the line. *)
Lemma location_tokens (s : jsstring) (pre suf : list jsstring) (n : nat) :
  split_ws s = pre ++ suf -> (1 <= n)%nat -> suf <> [] ->
  Forall (fun t => t <> [] /\ ws_free t) (skipn n (pre ++ removelast suf)).
Proof.
  intros E Hn Hsuf.
  destruct (exists_last Hsuf) as (suf' & z & ->).
  rewrite removelast_last.
  destruct pre as [|first pre'].
  - destruct n; [lia|]. simpl.
    destruct suf' as [|x suf'']; [constructor|].
    simpl in E |- *. apply Forall_skipn. eapply split_ws_middle. exact E.
  - destruct n; [lia|]. simpl. apply Forall_skipn.
    eapply split_ws_middle with (first := first) (last := z).
    rewrite E. simpl. now rewrite <- app_assoc.
Qed.

(** What the client makes of a line of at least ten tokens. *)
Lemma client_line_record_unfold (line : jsstring) (parts : list jsstring) :
  split_ws (trim line) = parts -> (10 <= length parts)%nat ->
  Client.line_record line =
  Some (record_of parts
          (trim (join sp
             (slice 8
                ((if startsWith (lit "REVIZE") (trim (at_ parts (length parts - 1)))
                     && startsWith (lit "(") (at_ parts (length parts - 2))
                  then Z.of_nat (length parts) - 2 - 1
                  else Z.of_nat (length parts) - 2) + 1)%Z parts)))
          (trim (at_ parts (length parts - 1)))).
Proof.
  intros E H. unfold Client.line_record. rewrite E.
  replace (length parts <? 10)%nat with false
    by (symmetry; apply Nat.ltb_ge; assumption).
  reflexivity.
Qed.

(** What the server makes of a line of at least ten tokens that passes
    its date and time test. *)
Lemma server_line_record_unfold (line : jsstring) (parts : list jsstring) :
  dateTimeStart_test line = true ->
  split_ws (trim line) = parts -> (10 <= length parts)%nat ->
  Server.line_record line =
  Some (record_of parts
          (trim (join sp
             (slice 8
                ((if startsWith (lit "REVIZE") (trim (at_ parts (length parts - 1)))
                     && startsWith (lit "(") (at_ parts (length parts - 2))
                  then Z.of_nat (length parts) - 1 - 2
                  else Z.of_nat (length parts) - 1) + 1)%Z parts)))
          (trim (at_ parts (length parts - 1)))).
Proof.
  intros G E H. unfold Server.line_record. rewrite G, E. simpl negb. cbv iota.
  replace (length parts <? 10)%nat with false
    by (symmetry; apply Nat.ltb_ge; assumption).
  replace (Z.to_nat (Z.of_nat (length parts) - 1)) with (length parts - 1)%nat by lia.
  replace (Z.to_nat (Z.of_nat (length parts) - 1 - 1)) with (length parts - 2)%nat by lia.
  reflexivity.
Qed.

(** The server's date and time test decides: a line that fails it
    yields no record. *)
Lemma server_start_test (line : jsstring) :
  dateTimeStart_test line = false -> Server.line_record line = None.
Proof. intros H. unfold Server.line_record. now rewrite H. Qed.

(** Either parser skips a line of fewer than ten tokens. *)
Lemma short_line_skipped (line : jsstring) :
  (length (split_ws (trim line)) < 10)%nat ->
  Client.line_record line = None /\ Server.line_record line = None.
Proof.
  intros H. apply Nat.ltb_lt in H.
  unfold Client.line_record, Server.line_record. rewrite H.
  now destruct (negb _).
Qed.

(** A revised line: both parsers build the same record, from the tokens
    before the timestamp and the marker alone. *)
Lemma revised_line_record (line : jsstring) (pre : list jsstring)
  (stamp marker : jsstring) :
  split_ws (trim line) = pre ++ [stamp; marker] ->
  (8 <= length pre)%nat ->
  startsWith (lit "REVIZE") marker = true ->
  startsWith (lit "(") stamp = true ->
  let r := record_of pre (join sp (skipn 8 pre)) marker in
  Client.line_record line = Some r /\
  (dateTimeStart_test line = true -> Server.line_record line = Some r).
Proof.
  intros E Hpre Hm Hs r.
  assert (Hlen : length (pre ++ [stamp; marker]) = (length pre + 2)%nat)
    by (rewrite length_app; reflexivity).
  assert (Hq : trim (at_ (pre ++ [stamp; marker])
                       (length (pre ++ [stamp; marker]) - 1)) = marker).
  { rewrite (at_suffix pre [stamp; marker] _ 1) by lia.
    apply trim_ws_free, (split_ws_token_ws_free (trim line)).
    rewrite E. apply in_or_app. right. simpl. auto. }
  assert (Hp : at_ (pre ++ [stamp; marker])
                 (length (pre ++ [stamp; marker]) - 2) = stamp)
    by (rewrite (at_suffix pre [stamp; marker] _ 0) by lia; reflexivity).
  assert (Hloc : forall stop, stop = Z.of_nat (length pre) ->
             trim (join sp (slice 8 stop (pre ++ [stamp; marker])))
             = join sp (skipn 8 pre)).
  { intros stop ->.
    rewrite (slice_prefix_range pre [stamp; marker] 8) by (reflexivity || lia).
    apply trim_join.
    pose proof (location_tokens (trim line) pre [stamp; marker] 8 E) as H.
    simpl removelast in H.
    specialize (H ltac:(lia) ltac:(discriminate)).
    rewrite skipn_app in H. apply Forall_app in H. apply H. }
  split; [|intros G].
  - rewrite (client_line_record_unfold line _ E) by lia.
    rewrite Hq, Hp, Hm, Hs. simpl andb. cbv iota.
    rewrite Hloc by lia. now rewrite record_of_prefix by lia.
  - rewrite (server_line_record_unfold line _ G E) by lia.
    rewrite Hq, Hp, Hm, Hs. simpl andb. cbv iota.
    rewrite Hloc by lia. now rewrite record_of_prefix by lia.
Qed.

End LineRecord.

Section OrdinaryLine.

Local Abbreviation ws_free := (Forall (fun c => isWhiteSpace c = false)).
Local Abbreviation sp := (lit " ").

Lemma dropWhile_stops (p : N -> bool) (s : jsstring) :
  dropWhile p s = [] \/ exists c r, dropWhile p s = c :: r /\ p c = false.
Proof.
  induction s as [|c s IH]; simpl; [now left|].
  destruct (p c) eqn:Hc; [assumption|]. right. eauto.
Qed.

(** A trimmed string is empty or ends in a unit that is not white
    space. *)
Lemma trim_last (s : jsstring) :
  trim s = [] \/ isWhiteSpace (last (trim s) SPACE) = false.
Proof.
  unfold trim, trimEnd.
  destruct (dropWhile_stops isWhiteSpace (rev (trimStart s)))
    as [-> | (c & r & -> & Hc)]; [now left|].
  right. simpl. now rewrite last_last.
Qed.

Lemma split_ws_from_last (b : bool) (s : jsstring) :
  isWhiteSpace (last s SPACE) = false -> last (split_ws_from b s) [] <> [].
Proof.
  revert b. induction s as [|c s IH]; intros b H; [discriminate|].
  destruct s as [|c' s'].
  - simpl in *. rewrite H. discriminate.
  - assert (H' : isWhiteSpace (last (c' :: s') SPACE) = false) by exact H.
    change (split_ws_from b (c :: c' :: s')) with
      (if isWhiteSpace c then
         if b then split_ws_from true (c' :: s')
         else [] :: split_ws_from true (c' :: s')
       else match split_ws_from false (c' :: s') with
            | l :: ls => (c :: l) :: ls
            | [] => [[c]]
            end).
    destruct (isWhiteSpace c).
    + destruct b; [now apply IH|].
      destruct (split_ws_from_cons true (c' :: s')) as (h & t & E).
      specialize (IH true H'). rewrite E in *. exact IH.
    + destruct (split_ws_from_cons false (c' :: s')) as (h & t & E).
      specialize (IH false H'). rewrite E in *.
      destruct t; [discriminate | exact IH].
Qed.

(** The last of two or more tokens of a trimmed line is not empty. *)
Lemma last_token_nonempty (line : jsstring) (pre : list jsstring) (q : jsstring) :
  split_ws (trim line) = pre ++ [q] -> pre <> [] -> q <> [].
Proof.
  intros E Hpre.
  destruct (trim_last line) as [H | H].
  - rewrite H in E. destruct pre as [|x [|y pre']]; [congruence| |]; discriminate.
  - pose proof (split_ws_from_last false _ H) as L.
    unfold split_ws in E. rewrite E, last_last in L. exact L.
Qed.

Lemma slice_to_end {A} (l : list A) (a : nat) (start stop : Z) :
  (a <= length l)%nat -> start = Z.of_nat a -> stop = Z.of_nat (length l) ->
  slice start stop l = skipn a l.
Proof.
  intros Ha Hs He.
  pose proof (slice_prefix_range l [] a start stop Ha Hs He) as H.
  now rewrite app_nil_r in H.
Qed.

(** An ordinary line on the client: the location is made of the tokens
    from the ninth up to, and without, the last one. *)
Lemma client_ordinary_record (line : jsstring) (pre : list jsstring) (q : jsstring) :
  split_ws (trim line) = pre ++ [q] -> (9 <= length pre)%nat ->
  startsWith (lit "REVIZE") q && startsWith (lit "(") (at_ pre (length pre - 1)) = false ->
  Client.line_record line = Some (record_of pre (join sp (skipn 8 pre)) q).
Proof.
  intros E Hpre Hord.
  assert (Hlen : length (pre ++ [q]) = (length pre + 1)%nat)
    by (rewrite length_app; reflexivity).
  rewrite (client_line_record_unfold line _ E) by lia.
  rewrite (at_suffix pre [q] _ 0) by lia. change (at_ [q] 0) with q.
  rewrite (at_prefix pre [q]) by lia.
  replace (length (pre ++ [q]) - 2)%nat with (length pre - 1)%nat by lia.
  rewrite (trim_ws_free q).
  2:{ apply (split_ws_token_ws_free (trim line)). rewrite E.
      apply in_or_app. right. simpl. auto. }
  rewrite Hord.
  rewrite (slice_prefix_range pre [q] 8) by (reflexivity || lia).
  rewrite record_of_prefix by lia. do 2 f_equal.
  apply trim_join.
  pose proof (location_tokens (trim line) pre [q] 8 E) as H.
  simpl removelast in H. rewrite app_nil_r in H. apply H; [lia | discriminate].
Qed.

(** The same line on the server: the slice runs to the end of the
    tokens, so the location ends with the quality code. *)
Lemma server_ordinary_record (line : jsstring) (pre : list jsstring) (q : jsstring) :
  dateTimeStart_test line = true ->
  split_ws (trim line) = pre ++ [q] -> (9 <= length pre)%nat ->
  startsWith (lit "REVIZE") q && startsWith (lit "(") (at_ pre (length pre - 1)) = false ->
  Server.line_record line
  = Some (record_of pre (join sp (skipn 8 pre ++ [q])) q).
Proof.
  intros G E Hpre Hord.
  assert (Hlen : length (pre ++ [q]) = (length pre + 1)%nat)
    by (rewrite length_app; reflexivity).
  rewrite (server_line_record_unfold line _ G E) by lia.
  rewrite (at_suffix pre [q] _ 0) by lia. change (at_ [q] 0) with q.
  rewrite (at_prefix pre [q]) by lia.
  replace (length (pre ++ [q]) - 2)%nat with (length pre - 1)%nat by lia.
  assert (Hq : ws_free q).
  { apply (split_ws_token_ws_free (trim line)). rewrite E.
    apply in_or_app. right. simpl. auto. }
  rewrite (trim_ws_free q Hq), Hord.
  rewrite (slice_to_end (pre ++ [q]) 8) by (reflexivity || lia).
  rewrite skipn_app. replace (8 - length pre)%nat with 0%nat by lia.
  change (skipn 0 [q]) with [q].
  rewrite record_of_prefix by lia. do 2 f_equal.
  apply trim_join. apply Forall_app. split.
  - pose proof (location_tokens (trim line) pre [q] 8 E) as H.
    simpl removelast in H. rewrite app_nil_r in H. apply H; [lia | discriminate].
  - constructor; [|constructor]. split; [|exact Hq].
    apply (last_token_nonempty line pre q E). destruct pre; [simpl in Hpre; lia | discriminate].
Qed.

End OrdinaryLine.

(* ===================================================================== *)
(** * A batch of lines *)
(* ===================================================================== *)

Section Batch.

Variable line_record : jsstring -> option Earthquake.

Local Abbreviation step :=
  (fun (acc : list Earthquake) (line : jsstring) =>
     match line_record line with
     | Some r => acc ++ [r]
     | None => acc
     end).

(** The loop appends to the array what each line yields, in line order. *)
Lemma forEach_emitted (lines : list jsstring) (acc : list Earthquake) :
  fold_left step lines acc = acc ++ emitted line_record lines.
Proof.
  revert acc. induction lines as [|l lines IH]; intros acc; simpl.
  - now rewrite app_nil_r.
  - rewrite IH. destruct (line_record l); simpl.
    + now rewrite <- app_assoc.
    + reflexivity.
Qed.

Lemma emitted_app (xs ys : list jsstring) :
  emitted line_record (xs ++ ys) = emitted line_record xs ++ emitted line_record ys.
Proof. unfold emitted. apply flat_map_app. Qed.

Lemma emitted_cons_some (l : jsstring) (ls : list jsstring) (r : Earthquake) :
  line_record l = Some r ->
  emitted line_record (l :: ls) = r :: emitted line_record ls.
Proof. intros H. unfold emitted. simpl. now rewrite H. Qed.

Lemma emitted_length (ls : list jsstring) :
  (length (emitted line_record ls) <= length ls)%nat.
Proof.
  induction ls as [|l ls IH]; simpl; [lia|].
  rewrite length_app. destruct (line_record l); simpl; lia.
Qed.

End Batch.

Section Lines.

Lemma split_on_cons (sep : N) (s : jsstring) :
  exists h t, split_on sep s = h :: t.
Proof.
  induction s as [|c s (h & t & IH)]; simpl; [eauto|].
  destruct (c =? sep)%N; [eauto|]. rewrite IH. eauto.
Qed.

(** No line of [split('\n')] carries a line feed. *)
Lemma split_on_no_sep (sep : N) (s : jsstring) :
  Forall (fun l => ~ In sep l) (split_on sep s).
Proof.
  induction s as [|c s IH]; simpl.
  - constructor; [intros []|constructor].
  - destruct (c =? sep)%N eqn:Hc.
    + constructor; [intros []|assumption].
    + destruct (split_on_cons sep s) as (l & ls & E). rewrite E in *.
      inversion IH; subst. constructor; [|assumption].
      intros [-> | H]; [rewrite N.eqb_refl in Hc; discriminate | contradiction].
Qed.

Lemma split_on_app_sep (sep : N) (x s : jsstring) :
  ~ In sep x -> split_on sep (x ++ sep :: s) = x :: split_on sep s.
Proof.
  induction x as [|c x IH]; intros H; simpl.
  - now rewrite N.eqb_refl.
  - destruct (c =? sep)%N eqn:Hc.
    + apply N.eqb_eq in Hc. subst. exfalso. apply H. now left.
    + rewrite IH; [reflexivity|]. intros H'. apply H. now right.
Qed.

Lemma split_on_single (sep : N) (x : jsstring) :
  ~ In sep x -> split_on sep x = [x].
Proof.
  induction x as [|c x IH]; intros H; simpl; [reflexivity|].
  destruct (c =? sep)%N eqn:Hc.
  - apply N.eqb_eq in Hc. subst. exfalso. apply H. now left.
  - rewrite IH; [reflexivity|]. intros H'. apply H. now right.
Qed.

(** Joining lines with a line feed and splitting again gives the lines
    back. *)
Lemma split_on_join (sep : N) (ls : list jsstring) :
  ls <> [] -> Forall (fun l => ~ In sep l) ls ->
  split_on sep (join [sep] ls) = ls.
Proof.
  induction ls as [|x rest IH]; [congruence|].
  intros _ H. inversion H as [|? ? Hx Hrest]; subst.
  destruct rest as [|y rest'].
  - now apply split_on_single.
  - rewrite join_cons2. change ([sep] ++ ?s) with (sep :: s).
    rewrite split_on_app_sep by assumption.
    f_equal. apply IH; [discriminate | assumption].
Qed.

Lemma candidate_lines_no_LF (text : jsstring) :
  Forall (fun l => ~ In LF l) (candidate_lines text).
Proof.
  unfold candidate_lines. apply Forall_forall. intros l Hl.
  apply filter_In in Hl as [Hl _]. apply filter_In in Hl as [Hl _].
  pose proof (split_on_no_sep LF text) as H.
  eapply Forall_forall in H; eassumption.
Qed.

Lemma candidate_lines_nonblank (text : jsstring) :
  Forall (fun l => nonblank l = true) (candidate_lines text).
Proof.
  unfold candidate_lines. apply Forall_forall. intros l Hl.
  apply filter_In in Hl as [Hl _]. now apply filter_In in Hl as [_ Hl].
Qed.

(** The server's second pass over lines the first pass selected: each
    line trimmed, none dropped. *)
Lemma dataLines_join (ls : list jsstring) :
  Forall (fun l => ~ In LF l) ls -> Forall (fun l => nonblank l = true) ls ->
  Server.dataLines (join [LF] ls) = map trim ls.
Proof.
  intros Hlf Hnb. unfold Server.dataLines.
  destruct ls as [|x rest]; [reflexivity|].
  rewrite split_on_join by (discriminate || assumption).
  apply forallb_filter_id. apply forallb_forall. intros t Ht.
  apply in_map_iff in Ht as (l & <- & Hl).
  eapply Forall_forall in Hnb; [|exact Hl]. exact Hnb.
Qed.

(** The client's parser: one record per retained line, in line order. *)
Lemma client_parse_emitted (rawText : jsstring) :
  Client.parseEarthquakeData rawText
  = emitted Client.line_record (candidate_lines rawText).
Proof.
  unfold Client.parseEarthquakeData.
  destruct (candidate_lines rawText) as [|l ls] eqn:E; [reflexivity|].
  simpl Nat.eqb. cbv iota.
  exact (forEach_emitted Client.line_record (l :: ls) []).
Qed.

Lemma server_lines_emitted (dataSection : jsstring) :
  Server.parseEarthquakeLines dataSection
  = emitted Server.line_record (Server.dataLines dataSection).
Proof.
  exact (forEach_emitted Server.line_record (Server.dataLines dataSection) []).
Qed.

End Lines.

(* ===================================================================== *)
(** * The report locator *)
(* ===================================================================== *)

Section LocatorFacts.

Local Abbreviation no_candidate :=
  (fun text => Forall (fun l => candidate l = false) (split_on LF text)).

(** A line stays a candidate when a unit is put in front of it. *)
Lemma candidate_cons (c : N) (l : jsstring) :
  candidate l = true -> candidate (c :: l) = true.
Proof.
  unfold candidate. intros H. apply andb_true_iff in H as [Hd Hi].
  apply andb_true_iff. split.
  - change (datePattern_test (c :: l))
      with (is_some (date_prefix (c :: l)) || datePattern_test l).
    rewrite Hd. apply orb_true_r.
  - change (includes (lit "-.-") (c :: l))
      with (startsWith (lit "-.-") (c :: l) || includes (lit "-.-") l).
    rewrite Hi. apply orb_true_r.
Qed.

Lemma candidate_nonempty (l : jsstring) :
  candidate l = true -> (0 <? length l)%nat = true.
Proof.
  destruct l; [|reflexivity]. intros H. discriminate H.
Qed.

Lemma no_candidate_tail (c : N) (s : jsstring) :
  no_candidate (c :: s) -> no_candidate s.
Proof.
  simpl. destruct (c =? LF)%N.
  - intros H. now inversion H.
  - destruct (split_on_cons LF s) as (l & ls & ->).
    intros H. inversion H as [|? ? Hl Hls]; subst. constructor; [|assumption].
    destruct (candidate l) eqn:E; [|reflexivity].
    apply (candidate_cons c) in E. congruence.
Qed.

(** A text without candidate line has none in any of its suffixes. *)
Lemma no_candidate_substring (start : Z) (text : jsstring) :
  no_candidate text -> no_candidate (substring start text).
Proof.
  unfold substring. generalize (Z.to_nat start) as k. intros k. revert text.
  induction k as [|k IH]; intros text H; [exact H|].
  destruct text as [|c s]; [exact H|].
  simpl skipn. apply IH. now apply no_candidate_tail in H.
Qed.

Lemma filter_none {A} (f : A -> bool) (l : list A) :
  Forall (fun x => f x = false) l -> filter f l = [].
Proof.
  induction 1 as [|x l Hx _ IH]; simpl; [reflexivity|]. now rewrite Hx.
Qed.

Lemma no_candidate_lines (text : jsstring) :
  no_candidate text -> candidate_lines text = [].
Proof.
  intros H. unfold candidate_lines. apply filter_none.
  apply Forall_forall. intros l Hl. apply filter_In in Hl as [Hl _].
  eapply Forall_forall in H; eassumption.
Qed.


Lemma no_candidate_alternate_scan (text : jsstring) (headers : list jsstring) :
  no_candidate text -> Server.alternate_scan text headers = None.
Proof.
  intros H. induction headers as [|h rest IH]; simpl; [reflexivity|].
  destruct (indexOf h text =? -1)%Z; [assumption|].
  destruct (datePattern_match _); [|assumption].
  now rewrite no_candidate_lines by now apply no_candidate_substring.
Qed.


Lemma find_candidate_none (text : jsstring) :
  find candidate (split_on LF text) = None <-> no_candidate text.
Proof.
  split.
  - intros H. apply Forall_forall. intros l Hl.
    exact (find_none _ _ H l Hl).
  - intros H. induction H as [|x l Hx _ IH]; simpl; [reflexivity|].
    now rewrite Hx.
Qed.

(** Without a candidate line the server's parser returns the empty
    list, whatever headers and separators the text carries. *)
Lemma server_no_candidate (text : jsstring) :
  no_candidate text -> Server.parseEarthquakeData text = [].
Proof.
  intros H. unfold Server.parseEarthquakeData.
  rewrite (proj2 (find_candidate_none text) H).
  destruct (indexOf Server.headerText text =? -1)%Z.
  - now rewrite no_candidate_alternate_scan.
  - destruct (separator_match _) as [[index match0]|]; [|reflexivity].
    rewrite no_candidate_lines; [reflexivity|].
    now do 2 apply no_candidate_substring.
Qed.

(** The server's parser on any text: the records of the candidate lines,
    each trimmed, in line order. *)
Lemma server_parse_emitted (rawText : jsstring) :
  Server.parseEarthquakeData rawText
  = emitted Server.line_record (map trim (candidate_lines rawText)).
Proof.
  destruct (find candidate (split_on LF rawText)) as [l|] eqn:F.
  - unfold Server.parseEarthquakeData. rewrite F.
    apply find_some in F as [_ F]. rewrite (candidate_nonempty l F).
    rewrite server_lines_emitted, dataLines_join;
      [reflexivity | apply candidate_lines_no_LF | apply candidate_lines_nonblank].
  - apply find_candidate_none in F.
    now rewrite server_no_candidate, no_candidate_lines.
Qed.

End LocatorFacts.

(* ===================================================================== *)
(** * The acquisition chain *)
(* ===================================================================== *)

Section ChainFacts.

Import Acquisition.

Variable fallbackEarthquakeData : list Earthquake.
Variable T : transport.

Ltac run_stage :=
  unfold bind, try_catch, fetch, await_text, ret; simpl;
  repeat match goal with
         | |- context [match ?c with Normal _ => _ | Thrown => _ end] =>
             destruct c; simpl
         | |- context [ok ?r] => destruct (ok r); simpl
         | |- context [Client.parseEarthquakeData ?b] =>
             destruct (Client.parseEarthquakeData b); simpl
         end;
  try reflexivity.

(** The last stage: its own records if it has any, the bundled dataset
    otherwise; one request either way. *)
Lemma public_proxy_run (l : log) :
  fetchWithPublicProxy fallbackEarthquakeData T l
  = (Normal match usable (T l PublicCorsProxy) with
            | Some rs => rs
            | None => fallbackEarthquakeData
            end, l ++ [PublicCorsProxy]).
Proof. unfold fetchWithPublicProxy, usable. run_stage. Qed.

Lemma proxy_run (l : log) :
  fetchWithProxy fallbackEarthquakeData T l
  = match usable (T l LocalProxy) with
    | Some rs => (Normal rs, l ++ [LocalProxy])
    | None => fetchWithPublicProxy fallbackEarthquakeData T (l ++ [LocalProxy])
    end.
Proof. unfold fetchWithProxy, usable. run_stage. Qed.

Lemma direct_run (l : log) :
  fetchEarthquakeData fallbackEarthquakeData T l
  = match usable (T l KoeriDirect) with
    | Some rs => (Normal rs, l ++ [KoeriDirect])
    | None => fetchWithProxy fallbackEarthquakeData T (l ++ [KoeriDirect])
    end.
Proof. unfold fetchEarthquakeData, usable. run_stage. Qed.

(** A 200 response whose body parses to no record is not usable. *)
Lemma empty_200_unusable (body : jsstring) :
  Client.parseEarthquakeData body = [] ->
  usable (Normal {| status := 200; text := Normal body |}) = None.
Proof. intros H. unfold usable. simpl. now rewrite H. Qed.

Lemma usable_nonempty (c : completion response) (rs : list Earthquake) :
  usable c = Some rs -> rs <> [].
Proof.
  unfold usable. destruct c as [r|]; [|discriminate].
  destruct (ok r); [|discriminate]. destruct (text r); [|discriminate].
  destruct (Client.parseEarthquakeData a); [discriminate|].
  intros [= <-]. discriminate.
Qed.

End ChainFacts.

Section TrimFacts.

Lemma dropWhile_snoc (p : N -> bool) (u : jsstring) (c : N) :
  p c = false -> dropWhile p (u ++ [c]) = dropWhile p u ++ [c].
Proof.
  intros H. induction u as [|a u IH]; simpl; [now rewrite H|].
  destruct (p a); [assumption | reflexivity].
Qed.

Lemma trimEnd_cons (c : N) (s : jsstring) :
  isWhiteSpace c = false -> trimEnd (c :: s) = c :: trimEnd s.
Proof.
  intros H. unfold trimEnd. simpl rev.
  rewrite dropWhile_snoc by assumption. now rewrite rev_app_distr.
Qed.

(** A trimmed string is empty or starts with a unit that is not white
    space. *)
Lemma trim_first (s : jsstring) :
  trim s = [] \/ exists c r, trim s = c :: r /\ isWhiteSpace c = false.
Proof.
  unfold trim, trimStart.
  destruct (dropWhile_stops isWhiteSpace s) as [-> | (c & r & -> & Hc)];
    [now left|].
  right. rewrite trimEnd_cons by assumption. eauto.
Qed.

Lemma trim_idempotent (s : jsstring) : trim (trim s) = trim s.
Proof.
  destruct (trim_first s) as [-> | F]; [reflexivity|].
  apply trim_ends; [exact F|].
  destruct (trim_last s) as [E | L].
  - destruct F as (c & r & F & _). congruence.
  - destruct F as (c & r & F & _).
    destruct (exists_last (l := trim s)) as (r' & c' & E); [congruence|].
    exists r', c'. split; [exact E|]. rewrite E, last_last in L. exact L.
Qed.

End TrimFacts.

(* ===================================================================== *)
(** * Numbers read and printed *)
(* ===================================================================== *)

Section NumberFacts.

Local Abbreviation digits := (Forall (fun c => isDigit c = true)).
Local Abbreviation stops := (fun (p : N -> bool) (s : jsstring) =>
  match s with c :: _ => p c = false | [] => True end).

Lemma takeWhile_app_stop (p : N -> bool) (a b : jsstring) :
  Forall (fun c => p c = true) a -> stops p b -> takeWhile p (a ++ b) = a.
Proof.
  intros Ha Hb. induction Ha as [|c a Hc _ IH]; simpl.
  - destruct b; [reflexivity|]. simpl in *. now rewrite Hb.
  - now rewrite Hc, IH.
Qed.

Lemma dropWhile_app_stop (p : N -> bool) (a b : jsstring) :
  Forall (fun c => p c = true) a -> stops p b -> dropWhile p (a ++ b) = b.
Proof.
  intros Ha Hb. induction Ha as [|c a Hc _ IH]; simpl.
  - destruct b; [reflexivity|]. simpl in *. now rewrite Hb.
  - now rewrite Hc, IH.
Qed.

Lemma zeros_are_zero (m : nat) :
  Forall (fun c => isZeroDigit c = true) (repeat 48%N m).
Proof. induction m; simpl; constructor; [reflexivity | assumption]. Qed.

Lemma zeros_are_digits (m : nat) : digits (repeat 48%N m).
Proof. induction m; simpl; constructor; [reflexivity | assumption]. Qed.

Lemma strip_leading_zeros (m : nat) (d : N) (r : jsstring) (n : Z) :
  isZeroDigit d = false ->
  strip_leading (repeat 48%N m ++ d :: r) n = (d :: r, (n - Z.of_nat m)%Z).
Proof.
  intros Hd. revert n. induction m as [|m IH]; intros n.
  - simpl. rewrite Hd. f_equal. lia.
  - cbn [repeat app strip_leading]. change (isZeroDigit 48) with true. cbv iota.
    rewrite IH. f_equal. lia.
Qed.

Lemma strip_trailing_zeros (init : jsstring) (z : N) (m : nat) :
  isZeroDigit z = false ->
  strip_trailing ((init ++ [z]) ++ repeat 48%N m) = init ++ [z].
Proof.
  intros Hz. unfold strip_trailing.
  rewrite rev_app_distr, rev_repeat, rev_app_distr. simpl rev. simpl app.
  rewrite (dropWhile_app_stop isZeroDigit (repeat 48%N m) (z :: rev init));
    [| apply zeros_are_zero | exact Hz].
  simpl. now rewrite rev_involutive.
Qed.

(** Zeros around canonical digits are dropped; those in front move the
    point. *)
Lemma normalise_padded (neg : bool) (ds : jsstring) (a b : nat) (n : Z) :
  (exists d rest, ds = d :: rest /\ isZeroDigit d = false) ->
  (exists init z, ds = init ++ [z] /\ isZeroDigit z = false) ->
  normalise neg (repeat 48%N a ++ ds ++ repeat 48%N b) n
  = Finite neg ds (n - Z.of_nat a).
Proof.
  intros (d & rest & E & Hd) (init & z & E' & Hz). unfold normalise.
  rewrite E. cbn [app]. rewrite (strip_leading_zeros a d _ n Hd).
  change (d :: rest ++ repeat 48%N b) with ((d :: rest) ++ repeat 48%N b).
  rewrite <- E, E'. rewrite (strip_trailing_zeros init z b Hz).
  destruct (init ++ [z]) eqn:X; [|reflexivity].
  destruct init; discriminate.
Qed.

Lemma normalise_plain (neg : bool) (ds : jsstring) (n : Z) :
  (exists d rest, ds = d :: rest /\ isZeroDigit d = false) ->
  (exists init z, ds = init ++ [z] /\ isZeroDigit z = false) ->
  normalise neg ds n = Finite neg ds n.
Proof.
  intros H1 H2. pose proof (normalise_padded neg ds 0 0 n H1 H2) as H.
  simpl in H. rewrite app_nil_r, Z.sub_0_r in H. exact H.
Qed.

(** ** Decimal digits of an exponent *)

Lemma chars_uint_chars (u : Decimal.uint) : chars_uint (uint_chars u) = u.
Proof. induction u; simpl; now rewrite ?IHu. Qed.

Lemma uint_chars_digits (u : Decimal.uint) : digits (uint_chars u).
Proof. induction u; simpl; constructor; solve [reflexivity | assumption]. Qed.

Lemma digits_value_decimal (v : N) : digits_value (decimal v) = v.
Proof.
  unfold digits_value, decimal. rewrite chars_uint_chars.
  apply DecimalN.Unsigned.of_to.
Qed.

Lemma decimal_digits (v : N) : digits (decimal v).
Proof. apply uint_chars_digits. Qed.

Lemma decimal_nonempty (v : N) : decimal v <> [].
Proof.
  unfold decimal. destruct v as [|p]; [discriminate|].
  simpl. pose proof (DecimalPos.Unsigned.to_uint_nonnil p) as H.
  destruct (Pos.to_uint p); [congruence | discriminate ..].
Qed.

(** The exponent [Number::toString] prints is the one [parseFloat]
    reads. *)
Lemma read_exponent_printed (e : Z) :
  read_exponent
    (lit "e" ++ (if (e <? 0)%Z then lit "-" else lit "+") ++ decimal (Z.abs_N e))
  = e.
Proof.
  unfold read_exponent. cbn [lit app N_of_ascii]. simpl N.eqb. cbn [orb].
  assert (T : takeWhile isDigit (decimal (Z.abs_N e)) = decimal (Z.abs_N e)).
  { rewrite <- (app_nil_r (decimal _)) at 1.
    apply takeWhile_app_stop; [apply decimal_digits | exact I]. }
  destruct (e <? 0)%Z eqn:He; cbn [lit app N_of_ascii read_sign]; simpl N.eqb;
    cbv iota; rewrite T;
    destruct (decimal (Z.abs_N e)) eqn:D;
    try (exfalso; exact (decimal_nonempty _ D));
    rewrite <- D, digits_value_decimal.
  - apply Z.ltb_lt in He. lia.
  - apply Z.ltb_ge in He. lia.
Qed.

End NumberFacts.

Section ReadPrinted.

Local Abbreviation digits := (Forall (fun c => isDigit c = true)).
Local Abbreviation stops := (fun (p : N -> bool) (s : jsstring) =>
  match s with c :: _ => p c = false | [] => True end).

Lemma digit_range (d : N) : isDigit d = true -> (48 <= d <= 57)%N.
Proof.
  unfold isDigit. intros H. apply andb_true_iff in H as [H1 H2].
  apply N.leb_le in H1, H2. lia.
Qed.

Lemma digit_not_infinity (d : N) (r : jsstring) :
  isDigit d = true -> startsWith (lit "Infinity") (d :: r) = false.
Proof.
  intros H. apply digit_range in H.
  change (lit "Infinity") with (73%N :: lit "nfinity"). cbn [startsWith].
  replace (73 =? d)%N with false; [reflexivity|].
  symmetry. apply N.eqb_neq. lia.
Qed.

(** Digits, a point, digits, and a rest that does not go on with a
    digit. *)
Lemma parse_unsigned_int_frac (neg : bool) (I F X : jsstring) :
  digits I -> I <> [] -> digits F -> stops isDigit X ->
  parse_unsigned neg (I ++ lit "." ++ F ++ X)
  = normalise neg (I ++ F) (Z.of_nat (length I) + read_exponent X).
Proof.
  intros HI Hne HF HX. unfold parse_unsigned.
  destruct I as [|d I']; [congruence|].
  rewrite <- app_comm_cons, digit_not_infinity by now inversion HI.
  rewrite app_comm_cons.
  rewrite takeWhile_app_stop, dropWhile_app_stop by (assumption || reflexivity).
  change (lit ".") with [46%N]. cbn [app]. rewrite N.eqb_refl.
  rewrite takeWhile_app_stop, dropWhile_app_stop by assumption.
  reflexivity.
Qed.

(** Digits and a rest that goes on with neither a digit nor a point. *)
Lemma parse_unsigned_int (neg : bool) (I X : jsstring) :
  digits I -> I <> [] -> stops isDigit X -> stops (N.eqb 46) X ->
  parse_unsigned neg (I ++ X)
  = normalise neg I (Z.of_nat (length I) + read_exponent X).
Proof.
  intros HI Hne HX HP. unfold parse_unsigned.
  destruct I as [|d I']; [congruence|].
  rewrite <- app_comm_cons, digit_not_infinity by now inversion HI.
  rewrite app_comm_cons.
  rewrite takeWhile_app_stop, dropWhile_app_stop by assumption.
  destruct X as [|c X'].
  - now rewrite app_nil_r.
  - cbv beta iota in HP. rewrite N.eqb_sym in HP. rewrite HP. now rewrite app_nil_r.
Qed.

Lemma parseFloat_signed (neg : bool) (d : N) (r : jsstring) :
  isDigit d = true ->
  parseFloat ((if neg then lit "-" else []) ++ d :: r) = parse_unsigned neg (d :: r).
Proof.
  intros H. apply digit_range in H. unfold parseFloat.
  destruct neg; [reflexivity|].
  cbn [app]. unfold trimStart.
  rewrite dropWhile_head_false.
  - unfold read_sign.
    replace (d =? 45)%N with false by (symmetry; apply N.eqb_neq; lia).
    replace (d =? 43)%N with false by (symmetry; apply N.eqb_neq; lia).
    reflexivity.
  - unfold isWhiteSpace.
    repeat match goal with
           | |- context [(?a <=? ?b)%N] =>
               let E := fresh in destruct (N.leb_spec a b) as [E|E]
           | |- context [(?a =? ?b)%N] =>
               let E := fresh in destruct (N.eqb_spec a b) as [E|E]
           end; try reflexivity; lia.
Qed.

Lemma Forall_firstn {A} (P : A -> Prop) (n : nat) (l : list A) :
  Forall P l -> Forall P (firstn n l).
Proof.
  intros H. rewrite <- (firstn_skipn n l) in H. now apply Forall_app in H.
Qed.

(** What [Number::toString] prints for canonical digits starts with a
    digit and reads back as the same digits with the same point. *)
Lemma print_digits_read (neg : bool) (ds : jsstring) (n : Z) :
  digits ds ->
  (exists d rest, ds = d :: rest /\ isZeroDigit d = false) ->
  (exists init z, ds = init ++ [z] /\ isZeroDigit z = false) ->
  (exists d r, print_digits ds n = d :: r /\ isDigit d = true)
  /\ parse_unsigned neg (print_digits ds n) = Finite neg ds n.
Proof.
  intros Hd Hhead Hlast. unfold print_digits.
  destruct Hhead as (d & rest & E & Hnz).
  assert (Hd0 : isDigit d = true) by (rewrite E in Hd; now inversion Hd).
  assert (Hhead : exists d rest, ds = d :: rest /\ isZeroDigit d = false) by eauto.
  assert (Hk : (1 <= Z.of_nat (length ds))%Z) by (rewrite E; simpl; lia).
  destruct ((Z.of_nat (length ds) <=? n) && (n <=? 21))%Z eqn:C1.
  { apply andb_true_iff in C1 as [C1 _]. apply Z.leb_le in C1. split.
    - rewrite E. simpl. eauto.
    - rewrite <- (app_nil_r (ds ++ _)).
      rewrite parse_unsigned_int; try exact I.
      + change (ds ++ repeat 48%N (Z.to_nat (n - Z.of_nat (length ds))))
          with (repeat 48%N 0 ++ ds ++ repeat 48%N (Z.to_nat (n - Z.of_nat (length ds)))).
        rewrite normalise_padded by assumption.
        cbn [repeat app]. rewrite length_app, repeat_length.
        f_equal. simpl read_exponent. lia.
      + apply Forall_app. split; [assumption | apply zeros_are_digits].
      + rewrite E. discriminate. }
  destruct ((0 <? n) && (n <=? 21))%Z eqn:C2.
  { apply andb_true_iff in C2 as [C2 C2']. apply Z.ltb_lt in C2. apply Z.leb_le in C2'.
    assert (Hn : (n < Z.of_nat (length ds))%Z).
    { apply andb_false_iff in C1 as [C1 | C1];
        [apply Z.leb_gt in C1 | apply Z.leb_gt in C1]; lia. }
    assert (Hf : firstn (Z.to_nat n) ds <> []).
    { rewrite E. destruct (Z.to_nat n) eqn:N0; [lia | discriminate]. }
    split.
    - rewrite E in *. destruct (Z.to_nat n) eqn:N0; [lia|]. simpl. eauto.
    - rewrite <- (app_nil_r (skipn _ ds)).
      rewrite parse_unsigned_int_frac;
        [| now apply Forall_firstn | assumption | now apply Forall_skipn | exact I].
      rewrite firstn_skipn, normalise_plain by assumption.
      rewrite length_firstn. f_equal. simpl read_exponent. lia. }
  destruct ((-6 <? n) && (n <=? 0))%Z eqn:C3.
  { apply andb_true_iff in C3 as [_ C3]. apply Z.leb_le in C3. split.
    - simpl. eauto.
    - rewrite <- (app_nil_r (repeat 48%N (Z.to_nat (- n)) ++ ds)).
      rewrite parse_unsigned_int_frac;
        [| repeat constructor | discriminate
         | apply Forall_app; split; [apply zeros_are_digits | assumption]
         | exact I].
      replace (lit "0" ++ repeat 48%N (Z.to_nat (- n)) ++ ds)
        with (repeat 48%N (S (Z.to_nat (- n))) ++ ds ++ repeat 48%N 0)
        by (simpl; now rewrite app_nil_r).
      rewrite normalise_padded by assumption.
      f_equal. simpl read_exponent. simpl length. lia. }
  rewrite E in *. destruct rest as [|d2 rest].
  - split; [simpl; eauto|].
    rewrite parse_unsigned_int; [| assumption | discriminate | reflexivity | reflexivity].
    rewrite read_exponent_printed, normalise_plain by assumption.
    f_equal. simpl length. lia.
  - split; [simpl; eauto|].
    rewrite parse_unsigned_int_frac;
      [| repeat constructor; assumption | discriminate | now inversion Hd | reflexivity].
    rewrite read_exponent_printed. change ([d] ++ d2 :: rest) with (d :: d2 :: rest).
    rewrite normalise_plain by assumption.
    f_equal. simpl length. lia.
Qed.

(** Zero prints as "0" whatever its sign; every other canonical number
    reads back from its print as itself. *)
Lemma parseFloat_toString (x : number) :
  canonical x -> parseFloat (toString x) = unsigned_zero x.
Proof.
  destruct x as [|neg|neg ds n]; intros C.
  - reflexivity.
  - destruct neg; reflexivity.
  - destruct ds as [|d rest]; [reflexivity|].
    destruct C as (Hd & Hh & Hl).
    destruct (print_digits_read neg (d :: rest) n Hd Hh Hl)
      as ((d' & r' & E & Hd') & P).
    cbn [toString unsigned_zero]. rewrite E, parseFloat_signed by assumption.
    now rewrite <- E.
Qed.

End ReadPrinted.

Section CanonicalNumbers.

Local Abbreviation digits := (Forall (fun c => isDigit c = true)).
Local Abbreviation plain := (Forall (fun c : N => c <> UNDERSCORE)).

Lemma takeWhile_all (p : N -> bool) (s : jsstring) :
  Forall (fun c => p c = true) (takeWhile p s).
Proof.
  induction s as [|c s IH]; simpl; [constructor|].
  destruct (p c) eqn:E; constructor; assumption.
Qed.

Lemma takeWhile_dropWhile (p : N -> bool) (s : jsstring) :
  takeWhile p s ++ dropWhile p s = s.
Proof.
  induction s as [|c s IH]; simpl; [reflexivity|].
  destruct (p c); simpl; [now rewrite IH | reflexivity].
Qed.

Lemma strip_leading_digits (ds : jsstring) (n : Z) :
  digits ds ->
  digits (fst (strip_leading ds n))
  /\ match fst (strip_leading ds n) with
     | c :: _ => isZeroDigit c = false
     | [] => True
     end.
Proof.
  intros H. revert n. induction H as [|c ds Hc Hds IH]; intros n; simpl.
  - split; [constructor | exact I].
  - destruct (isZeroDigit c) eqn:Z; [apply IH|].
    simpl. split; [constructor; assumption | exact Z].
Qed.

(** [normalise] returns canonical numbers. *)
Lemma normalise_canonical (neg : bool) (ds : jsstring) (n : Z) :
  digits ds -> canonical (normalise neg ds n).
Proof.
  intros H. unfold normalise.
  destruct (strip_leading_digits ds n H) as [Hd Hz].
  destruct (strip_leading ds n) as [ds1 n1]. simpl in Hd, Hz.
  unfold strip_trailing.
  pose proof (takeWhile_dropWhile isZeroDigit (rev ds1)) as S.
  apply (f_equal (@rev N)) in S. rewrite rev_involutive, rev_app_distr in S.
  destruct (rev (dropWhile isZeroDigit (rev ds1))) as [|c t] eqn:R;
    [reflexivity|].
  cbn [canonical]. rewrite <- S in Hd, Hz.
  apply Forall_app in Hd as [Hd _]. split; [exact Hd|]. split.
  - exists c, t. split; [reflexivity | exact Hz].
  - destruct (dropWhile_stops isZeroDigit (rev ds1)) as [X | (z & x & X & Hz')];
      rewrite X in R; [discriminate|].
    simpl in R. exists (rev x), z. split; [now rewrite R | exact Hz'].
Qed.

(** Every number the parsers store is canonical. *)
Lemma parseFloat_canonical (s : jsstring) : canonical (parseFloat s).
Proof.
  unfold parseFloat. destruct (read_sign (trimStart s)) as [neg r].
  unfold parse_unsigned. destruct (startsWith _ r); [exact I|].
  assert (H : forall frac r2, digits frac ->
             canonical match takeWhile isDigit r ++ frac with
                       | [] => NaN
                       | d :: ds =>
                           normalise neg (d :: ds)
                             (Z.of_nat (length (takeWhile isDigit r)) + read_exponent r2)
                       end).
  { intros frac r2 Hf.
    destruct (takeWhile isDigit r ++ frac) eqn:E; [exact I|]. rewrite <- E.
    apply normalise_canonical, Forall_app. split; [apply takeWhile_all | exact Hf]. }
  destruct (dropWhile isDigit r) as [|c r']; [exact (H [] [] (Forall_nil _))|].
  destruct (c =? 46)%N;
    [exact (H _ _ (takeWhile_all _ _)) | exact (H [] _ (Forall_nil _))].
Qed.

Lemma digits_plain (s : jsstring) : digits s -> plain s.
Proof.
  apply Forall_impl. intros c H. apply digit_range in H.
  unfold UNDERSCORE. lia.
Qed.

Lemma print_digits_plain (ds : jsstring) (n : Z) :
  digits ds -> plain (print_digits ds n).
Proof.
  intros H. pose proof (digits_plain ds H) as P. unfold print_digits.
  assert (Pz : forall m, plain (repeat 48%N m))
    by (intros m; apply digits_plain, zeros_are_digits).
  assert (Pe : forall e, plain (decimal e))
    by (intros e; apply digits_plain, decimal_digits).
  assert (Ps : forall b : bool, plain (if b then lit "-" else lit "+"))
    by (intros [|]; repeat constructor; discriminate).
  repeat match goal with
         | |- plain (if ?t then _ else _) => destruct t
         | |- plain (match ?l with [] => _ | _ :: _ => _ end) =>
             destruct l as [|? [|? ?]]
         | |- plain (_ ++ _) => apply Forall_app; split
         | |- plain (firstn _ _) => apply Forall_firstn
         | |- plain (skipn _ _) => apply Forall_skipn
         | |- plain (lit _) => repeat constructor; discriminate
         | |- plain [] => constructor
         | |- plain [_] => constructor; [now inversion P | constructor]
         | |- plain (_ :: _) => now inversion P
         | _ => solve [auto]
         end.
Qed.

(** No number prints with an underscore. *)
Lemma toString_plain (x : number) : canonical x -> plain (toString x).
Proof.
  destruct x as [|neg|neg ds n]; intros C; simpl.
  - repeat constructor; discriminate.
  - destruct neg; repeat constructor; discriminate.
  - destruct ds as [|d rest]; [repeat constructor; discriminate|].
    destruct C as (Hd & _). apply Forall_app. split.
    + destruct neg; repeat constructor; discriminate.
    + now apply print_digits_plain.
Qed.

Lemma unsigned_zero_same (x y : number) :
  canonical x -> canonical y ->
  unsigned_zero x = unsigned_zero y -> same_value x y.
Proof.
  intros Cx Cy H.
  destruct x as [|a|a [|d ds] n]; destruct y as [|b|b [|e es] m];
    simpl in *; try discriminate; try (left; exact H).
  right. exists a, b. subst. split; reflexivity.
Qed.

(** [Number::toString] tells canonical numbers apart, the two zeros
    excepted. *)
Lemma toString_inj (x y : number) :
  canonical x -> canonical y ->
  toString x = toString y <-> same_value x y.
Proof.
  intros Cx Cy. split.
  - intros H. apply unsigned_zero_same; try assumption.
    rewrite <- !parseFloat_toString by assumption. now rewrite H.
  - intros [-> | (a & b & -> & ->)]; reflexivity.
Qed.

End CanonicalNumbers.

(* ===================================================================== *)
(** * The derived key *)
(* ===================================================================== *)

Section Identifier.

Local Abbreviation ws_free := (Forall (fun c => isWhiteSpace c = false)).
Local Abbreviation plain := (Forall (fun c : N => c <> UNDERSCORE)).

Lemma digits_prefix_shape (n : nat) (s rest : jsstring) :
  digits_prefix n s = Some rest ->
  exists a, s = a ++ rest /\ length a = n /\ ws_free a.
Proof.
  revert s. induction n as [|n IH]; intros s H; simpl in H.
  - injection H as <-. exists []. repeat split. constructor.
  - destruct s as [|c s]; [discriminate|].
    destruct (isDigit c) eqn:D; [|discriminate].
    destruct (IH s H) as (a & -> & L & W).
    exists (c :: a). repeat split; [simpl; now rewrite L|].
    constructor; [|exact W].
    apply digit_range in D. unfold isWhiteSpace.
    repeat match goal with
           | |- context [(?x <=? ?y)%N] =>
               let E := fresh in destruct (N.leb_spec x y) as [E|E]
           | |- context [(?x =? ?y)%N] =>
               let E := fresh in destruct (N.eqb_spec x y) as [E|E]
           end; try reflexivity; lia.
Qed.

Lemma point_prefix_shape (s rest : jsstring) :
  unit_prefix 46 s = Some rest -> s = 46%N :: rest.
Proof.
  destruct s as [|c s]; [discriminate|]. simpl.
  destruct (N.eqb_spec c 46); [|discriminate]. now intros [= <-]; subst.
Qed.

(** A date match is ten units long and free of white space. *)
Lemma date_prefix_shape (s rest : jsstring) :
  date_prefix s = Some rest ->
  exists ten, s = ten ++ rest /\ length ten = 10%nat /\ ws_free ten.
Proof.
  unfold date_prefix, and_then. intros H.
  destruct (digits_prefix 4 s) as [r1|] eqn:E1; [|discriminate].
  destruct (unit_prefix 46 r1) as [r2|] eqn:E2; [|discriminate].
  destruct (digits_prefix 2 r2) as [r3|] eqn:E3; [|discriminate].
  destruct (unit_prefix 46 r3) as [r4|] eqn:E4; [|discriminate].
  apply digits_prefix_shape in E1 as (a1 & -> & L1 & W1).
  apply point_prefix_shape in E2 as ->.
  apply digits_prefix_shape in E3 as (a3 & -> & L3 & W3).
  apply point_prefix_shape in E4 as ->.
  apply digits_prefix_shape in H as (a5 & -> & L5 & W5).
  exists (a1 ++ [46%N] ++ a3 ++ [46%N] ++ a5). repeat split.
  - now rewrite <- !app_assoc.
  - rewrite !length_app. simpl. lia.
  - repeat (apply Forall_app; split); try assumption;
      repeat constructor.
Qed.

Lemma trimEnd_app (a x : jsstring) :
  ws_free a -> trimEnd (a ++ x) = a ++ trimEnd x.
Proof.
  induction 1 as [|c a Hc _ IH]; [reflexivity|].
  simpl. now rewrite trimEnd_cons, IH.
Qed.

Lemma trimEnd_prefix (s : jsstring) : exists rest, s = trimEnd s ++ rest.
Proof.
  unfold trimEnd. exists (rev (takeWhile isWhiteSpace (rev s))).
  rewrite <- rev_app_distr, takeWhile_dropWhile. now rewrite rev_involutive.
Qed.

Lemma split_ws_first_token (a y : jsstring) :
  ws_free a -> a <> [] ->
  match y with c :: _ => isWhiteSpace c = true | [] => True end ->
  exists t, split_ws (a ++ y) = a :: t.
Proof.
  intros W Hne Hy. unfold split_ws.
  induction W as [|c a Hc W IH]; [congruence|].
  simpl. rewrite Hc. destruct a as [|c' a'].
  - destruct y as [|w y']; simpl; [eauto|].
    rewrite Hy. eauto.
  - destruct IH as (t & ->); [discriminate|]. eauto.
Qed.

(** The first token of a line that passes the server's test is its
    date match. *)
Lemma start_test_date_token (line : jsstring) :
  dateTimeStart_test line = true ->
  length (at_ (split_ws (trim line)) 0) = 10%nat.
Proof.
  unfold dateTimeStart_test. intros H.
  destruct (date_prefix line) as [[|c r]|] eqn:E; try discriminate.
  apply andb_true_iff in H as [Hc _].
  apply date_prefix_shape in E as (ten & -> & L & W).
  assert (Hne : ten <> []) by (destruct ten; [discriminate L | discriminate]).
  unfold trim, trimStart.
  destruct ten as [|d ten']; [congruence|].
  rewrite <- app_comm_cons, dropWhile_head_false by now inversion W.
  rewrite app_comm_cons, trimEnd_app by assumption.
  destruct (split_ws_first_token (d :: ten') (trimEnd (c :: r)) W Hne) as (t & ->);
    [|exact L].
  destruct (trimEnd_prefix (c :: r)) as (rest & P).
  destruct (trimEnd (c :: r)) as [|c' r']; [exact I|].
  injection P as <- _. exact Hc.
Qed.

Lemma app_inj_length {A} (a b c d : list A) :
  length a = length c -> a ++ b = c ++ d -> a = c /\ b = d.
Proof.
  revert c. induction a as [|x a IH]; intros [|y c] L H; try discriminate.
  - now split.
  - injection H as -> H. destruct (IH c) as [-> ->]; [now injection L | exact H|].
    now split.
Qed.

Lemma first_separator (u : N) (a b c d : jsstring) :
  ~ In u a -> ~ In u c -> a ++ u :: b = c ++ u :: d -> a = c /\ b = d.
Proof.
  revert c. induction a as [|x a IH]; intros [|y c] Ha Hc H.
  - injection H as <-. now split.
  - injection H as <- _. exfalso. apply Hc. now left.
  - injection H as -> _. exfalso. apply Ha. now left.
  - injection H as -> H. destruct (IH c) as [-> ->]; try exact H.
    + intros X. apply Ha. now right.
    + intros X. apply Hc. now right.
    + now split.
Qed.

Lemma last_separator (u : N) (a b c d : jsstring) :
  ~ In u b -> ~ In u d -> a ++ u :: b = c ++ u :: d -> a = c /\ b = d.
Proof.
  intros Hb Hd H. apply (f_equal (@rev N)) in H.
  rewrite !rev_app_distr in H. simpl in H. rewrite <- !app_assoc in H.
  simpl in H. apply first_separator in H as [H1 H2].
  - split; [apply rev_inj | apply rev_inj]; assumption.
  - now rewrite <- in_rev.
  - now rewrite <- in_rev.
Qed.

Lemma plain_not_in (s : jsstring) : plain s -> ~ In UNDERSCORE s.
Proof. intros H X. eapply Forall_forall in H; [|exact X]. congruence. Qed.

(** The key tells apart dates of one length, times, and the prints of
    the two coordinates. *)
Lemma make_id_inj (d1 t1 d2 t2 : jsstring) (a1 b1 a2 b2 : number) :
  length d1 = length d2 ->
  canonical a1 -> canonical b1 -> canonical a2 -> canonical b2 ->
  make_id d1 t1 a1 b1 = make_id d2 t2 a2 b2 ->
  d1 = d2 /\ t1 = t2 /\ toString a1 = toString a2 /\ toString b1 = toString b2.
Proof.
  intros L Ca1 Cb1 Ca2 Cb2 H. unfold make_id in H.
  apply app_inj_length in H as [-> H]; [|exact L].
  change (lit "_") with [UNDERSCORE] in H. cbn [app] in H.
  injection H as H.
  assert (R : forall t a b : jsstring,
             t ++ UNDERSCORE :: a ++ UNDERSCORE :: b
             = (t ++ UNDERSCORE :: a) ++ UNDERSCORE :: b)
    by (intros; now rewrite <- app_assoc).
  rewrite !R in H.
  apply last_separator in H as [H Hb];
    [| now apply plain_not_in, toString_plain ..].
  apply last_separator in H as [Ht Ha];
    [| now apply plain_not_in, toString_plain ..].
  now repeat split.
Qed.

Lemma emitted_In (line_record : jsstring -> option Earthquake)
  (lines : list jsstring) (r : Earthquake) :
  In r (emitted line_record lines) ->
  exists line, In line lines /\ line_record line = Some r.
Proof.
  unfold emitted. intros H. apply in_flat_map in H as (line & Hl & H).
  exists line. split; [exact Hl|].
  destruct (line_record line) as [r'|]; [|contradiction].
  destruct H as [-> | []]. reflexivity.
Qed.

(** What the server-side parser guarantees of a record: a date of ten
    units, the key made of the four fields, canonical coordinates. *)
Lemma server_record_shape (line : jsstring) (r : Earthquake) :
  Server.line_record line = Some r ->
  length (date r) = 10%nat
  /\ id r = make_id (date r) (time r) (latitude r) (longitude r)
  /\ canonical (latitude r) /\ canonical (longitude r).
Proof.
  intros H. destruct (dateTimeStart_test line) eqn:G;
    [|rewrite server_start_test in H by exact G; discriminate].
  destruct (Nat.ltb_spec (length (split_ws (trim line))) 10) as [S | S];
    [destruct (short_line_skipped line S) as [_ X]; congruence|].
  rewrite (server_line_record_unfold line _ G eq_refl S) in H.
  injection H as <-. unfold record_of. simpl.
  repeat split; [now apply start_test_date_token | apply parseFloat_canonical ..].
Qed.

(** The key of the client is made of the same four fields. *)
Lemma client_record_key (line : jsstring) (r : Earthquake) :
  Client.line_record line = Some r ->
  id r = make_id (date r) (time r) (latitude r) (longitude r).
Proof.
  intros H.
  destruct (Nat.ltb_spec (length (split_ws (trim line))) 10) as [S | S];
    [destruct (short_line_skipped line S) as [X _]; congruence|].
  rewrite (client_line_record_unfold line _ eq_refl S) in H.
  now injection H as <-.
Qed.

(** On the server the key identifies the event: two records of the
    server-side parser have the same id exactly when they agree on date,
    time, latitude and longitude. *)
Lemma server_id_identifies (line1 line2 : jsstring) (r1 r2 : Earthquake) :
  Server.line_record line1 = Some r1 ->
  Server.line_record line2 = Some r2 ->
  id r1 = id r2 <->
  date r1 = date r2 /\ time r1 = time r2
  /\ same_value (latitude r1) (latitude r2)
  /\ same_value (longitude r1) (longitude r2).
Proof.
  intros H1 H2.
  destruct (server_record_shape line1 r1 H1) as (L1 & I1 & Ca1 & Cb1).
  destruct (server_record_shape line2 r2 H2) as (L2 & I2 & Ca2 & Cb2).
  rewrite I1, I2. split.
  - intros H. apply make_id_inj in H as (Hd & Ht & Ha & Hb);
      try assumption; [|congruence].
    repeat split; try assumption; now apply toString_inj.
  - intros (Hd & Ht & Ha & Hb).
    apply toString_inj in Ha, Hb; try assumption.
    unfold make_id. now rewrite Hd, Ht, Ha, Hb.
Qed.

Lemma server_parse_id_identifies (text1 text2 : jsstring) (r1 r2 : Earthquake) :
  In r1 (Server.parseEarthquakeData text1) ->
  In r2 (Server.parseEarthquakeData text2) ->
  id r1 = id r2 <->
  date r1 = date r2 /\ time r1 = time r2
  /\ same_value (latitude r1) (latitude r2)
  /\ same_value (longitude r1) (longitude r2).
Proof.
  rewrite !server_parse_emitted. intros H1 H2.
  apply emitted_In in H1 as (l1 & _ & H1). apply emitted_In in H2 as (l2 & _ & H2).
  exact (server_id_identifies l1 l2 r1 r2 H1 H2).
Qed.

(** Every record of the server-side parser comes from a candidate line
    that, once trimmed, starts with a date and a time. *)
Lemma server_records_start_with_date (rawText : jsstring) (r : Earthquake) :
  In r (Server.parseEarthquakeData rawText) ->
  exists line,
    In line (candidate_lines rawText)
    /\ dateTimeStart_test (trim line) = true
    /\ Server.line_record (trim line) = Some r.
Proof.
  rewrite server_parse_emitted. intros H.
  apply emitted_In in H as (l & Hl & H).
  apply in_map_iff in Hl as (line & <- & Hl).
  exists line. repeat split; try assumption.
  destruct (dateTimeStart_test (trim line)) eqn:G; [reflexivity|].
  rewrite server_start_test in H by exact G. discriminate.
Qed.

End Identifier.

(* ===================================================================== *)
(** * The properties of the specification *)
(* ===================================================================== *)

(** C1, at the line of section 8, where the server-side parser breaks
    it: the line ends in the ordinary quality code [C], the client keeps
    that token out of the location, and the record of
    [parseEarthquakeLines] carries it as the last word of [location]
    as well as in [solutionQuality]. *)
Theorem C1_server_location_keeps_quality_code :
  Server.parseEarthquakeLines sample_line = [server_sample_record]
  /\ solutionQuality server_sample_record = lit "C"
  /\ location server_sample_record = lit "SOME PLACE NAME" ++ lit " " ++ lit "C"
  /\ exists r, Client.parseEarthquakeData sample_line = [r]
               /\ location r = lit "SOME PLACE NAME".
Proof.
  repeat split; try (vm_compute; reflexivity).
  exists sample_record. split; vm_compute; reflexivity.
Qed.

(** C2, at its own input: from the line of section 8 the client-side
    pipeline produces exactly the expected record; the server-side
    pipeline produces one record too, which differs from the expected
    one in [location], "SOME PLACE NAME C". *)
Theorem C2_end_to_end_sample_line :
  Client.parseEarthquakeData sample_line = [sample_record]
  /\ Server.parseEarthquakeData sample_line = [server_sample_record]
  /\ location server_sample_record <> location sample_record.
Proof.
  repeat split; try (vm_compute; reflexivity).
  vm_compute. discriminate.
Qed.

(** C3, at a footnote that mentions a date and the sentinel: the line
    does not start with a date and a time, the server-side parser skips
    it, and the client-side parser, which has no such test, turns it into
    a record whose date is "Not:". *)
Theorem C3_client_records_line_without_date_start :
  dateTimeStart_test (trim footnote_line) = false
  /\ Server.parseEarthquakeData footnote_line = []
  /\ exists r, Client.parseEarthquakeData footnote_line = [r]
               /\ date r = lit "Not:" /\ time r = lit "2024.03.15"
               /\ latitude r = NaN.
Proof.
  repeat split; try (vm_compute; reflexivity).
  eexists. split; [vm_compute; reflexivity|].
  repeat split; vm_compute; reflexivity.
Qed.

(** C4: a line of at least ten tokens whose last token starts with
    REVIZE and whose second-to-last token starts with an open
    parenthesis yields, in both parsers (in the server's when the line
    passes its date and time test), one record whose location is the
    tokens from the ninth up to the one before the timestamp, joined by
    single spaces, whose solutionQuality is the REVIZE token, and which as
    a whole is built from the tokens before the timestamp and the REVIZE
    token alone: the timestamp is in no field. *)
Theorem C4_revised_line_drops_timestamp
  (line : jsstring) (pre : list jsstring) (stamp marker : jsstring) :
  split_ws (trim line) = pre ++ [stamp; marker] ->
  (8 <= length pre)%nat ->
  startsWith (lit "REVIZE") marker = true ->
  startsWith (lit "(") stamp = true ->
  exists r,
    Client.line_record line = Some r
    /\ (dateTimeStart_test line = true -> Server.line_record line = Some r)
    /\ location r = join (lit " ") (skipn 8 pre)
    /\ solutionQuality r = marker
    /\ r = record_of pre (join (lit " ") (skipn 8 pre)) marker.
Proof.
  intros E Hpre Hm Hs.
  destruct (revised_line_record line pre stamp marker E Hpre Hm Hs) as [Hc Hsv].
  exists (record_of pre (join (lit " ") (skipn 8 pre)) marker).
  split; [exact Hc|]. split; [exact Hsv|]. repeat split.
Qed.

Lemma C4_revised_line_witness :
  exists r,
    Client.line_record revised_line = Some r
    /\ (dateTimeStart_test revised_line = true ->
        Server.line_record revised_line = Some r)
    /\ location r = lit "PLACE NAME"
    /\ solutionQuality r = lit "REVIZE01"
    /\ r = record_of (firstn 10 (split_ws revised_line)) (lit "PLACE NAME")
             (lit "REVIZE01").
Proof.
  exact (C4_revised_line_drops_timestamp revised_line
           (firstn 10 (split_ws revised_line)) (lit "(14:00:00)") (lit "REVIZE01")
           eq_refl (le_S _ _ (le_S _ _ (le_n 8))) eq_refl eq_refl).
Defined.

(** The example of C4, run through both pipelines. *)
Example revised_line_end_to_end :
  map (fun r => (location r, solutionQuality r))
      (Client.parseEarthquakeData revised_line)
  = [(lit "PLACE NAME", lit "REVIZE01")]
  /\ Server.parseEarthquakeData revised_line
     = Client.parseEarthquakeData revised_line.
Proof. split; vm_compute; reflexivity. Qed.

(** C5 fails as stated: the third token of the line, "abc", is no
    decimal literal, and both pipelines still emit a record for the line,
    with [NaN] as its latitude. *)
Lemma C5_ill_formed_latitude_is_not_skipped :
  is_decimal_literal (at_ (split_ws (trim malformed_line)) 2) = false
  /\ (exists r, Client.parseEarthquakeData malformed_line = [r]
                /\ latitude r = NaN)
  /\ (exists r, Server.parseEarthquakeData malformed_line = [r]
                /\ latitude r = NaN).
Proof.
  split; [vm_compute; reflexivity|].
  split; eexists; (split; [vm_compute; reflexivity|]); vm_compute; reflexivity.
Qed.

(** C5 as the code has it: a candidate line of at least ten tokens is
    never skipped for the content of its numeric columns. Whatever the
    tokens 2 to 7 are, the client emits one record for the line, whose
    latitude, longitude and depth are [parseFloat] of the tokens 2 to 4
    and whose magnitudes are null for the sentinel and [parseFloat] of the
    token otherwise ([parseFloat] has a value for every token, [NaN] for
    one without a numeric prefix); the server does the same when the line
    passes its date and time test; and the lines before and after it are
    parsed as they are without it. *)
Theorem C5_numeric_columns_never_skip_a_line
  (rawText line : jsstring) (before after : list jsstring) :
  candidate_lines rawText = before ++ line :: after ->
  (10 <= length (split_ws (trim line)))%nat ->
  let parts := split_ws (trim line) in
  let numeric r :=
    latitude r = parseFloat (at_ parts 2)
    /\ longitude r = parseFloat (at_ parts 3)
    /\ depth r = parseFloat (at_ parts 4)
    /\ magnitudeMD r = magnitude (at_ parts 5)
    /\ magnitudeML r = magnitude (at_ parts 6)
    /\ magnitudeMw r = magnitude (at_ parts 7) in
  (exists r,
      Client.line_record line = Some r /\ numeric r
      /\ Client.parseEarthquakeData rawText
         = emitted Client.line_record before ++ r
           :: emitted Client.line_record after)
  /\ (dateTimeStart_test (trim line) = true ->
      exists r,
        Server.line_record (trim line) = Some r /\ numeric r
        /\ Server.parseEarthquakeData rawText
           = emitted Server.line_record (map trim before) ++ r
             :: emitted Server.line_record (map trim after)).
Proof.
  intros E Hlen parts numeric. split.
  - eexists. split; [apply (client_line_record_unfold line parts eq_refl Hlen)|].
    split; [repeat split|].
    rewrite client_parse_emitted, E, emitted_app.
    erewrite emitted_cons_some;
      [reflexivity | apply (client_line_record_unfold line parts eq_refl Hlen)].
  - intros G.
    assert (Hp : split_ws (trim (trim line)) = parts)
      by (now rewrite trim_idempotent).
    eexists. split; [apply (server_line_record_unfold (trim line) parts G Hp Hlen)|].
    split; [repeat split|].
    rewrite server_parse_emitted, E, map_app, emitted_app. simpl map.
    erewrite emitted_cons_some;
      [reflexivity | apply (server_line_record_unfold (trim line) parts G Hp Hlen)].
Qed.

Lemma C5_numeric_columns_witness :
  exists r,
    Client.line_record malformed_line = Some r
    /\ latitude r = NaN
    /\ Client.parseEarthquakeData (sample_line ++ [LF] ++ malformed_line)
       = [sample_record; r].
Proof.
  destruct (C5_numeric_columns_never_skip_a_line
              (sample_line ++ [LF] ++ malformed_line) malformed_line
              [sample_line] [] eq_refl
              (le_S _ _ (le_S _ _ (le_n 10))))
    as [(r & Hr & (Hlat & _) & Hbatch) _].
  exists r. split; [exact Hr|]. split; [exact Hlat | exact Hbatch].
Defined.

Section ChainProperties.

Import Acquisition.

(** C7: whatever the transport does at each of the three requests
    (reject, answer with any status, fail to deliver the body, deliver
    any text), [fetchEarthquakeData] completes normally with a record
    list: the records of the first stage that is usable, and the bundled
    fallback dataset when no stage is. *)
Theorem C7_fetch_never_raises
  (fallbackEarthquakeData : list Earthquake) (T : transport) :
  fst (fetchEarthquakeData fallbackEarthquakeData T [])
  = Normal
      match usable (T [] KoeriDirect) with
      | Some rs => rs
      | None =>
          match usable (T [KoeriDirect] LocalProxy) with
          | Some rs => rs
          | None =>
              match usable (T [KoeriDirect; LocalProxy] PublicCorsProxy) with
              | Some rs => rs
              | None => fallbackEarthquakeData
              end
          end
      end.
Proof.
  rewrite direct_run. destruct (usable (T [] KoeriDirect)); [reflexivity|].
  rewrite proxy_run. simpl app.
  destruct (usable (T [KoeriDirect] LocalProxy)); [reflexivity|].
  now rewrite public_proxy_run.
Qed.

(** C8: when the direct request is answered with status 200 and a body
    from which no record parses, the chain goes on to the local relay,
    and its outcome is that of [fetchWithProxy]; when the relay too is
    answered with status 200 and a body without records, the chain goes
    on to the public proxy, the third and last request. *)
Theorem C8_empty_200_falls_through
  (fallbackEarthquakeData : list Earthquake) (T : transport) (body : jsstring) :
  T [] KoeriDirect = Normal {| status := 200; text := Normal body |} ->
  Client.parseEarthquakeData body = [] ->
  let run := fetchEarthquakeData fallbackEarthquakeData T [] in
  run = fetchWithProxy fallbackEarthquakeData T [KoeriDirect]
  /\ (exists rest, snd run = KoeriDirect :: LocalProxy :: rest)
  /\ forall body',
       T [KoeriDirect] LocalProxy
       = Normal {| status := 200; text := Normal body' |} ->
       Client.parseEarthquakeData body' = [] ->
       run = fetchWithPublicProxy fallbackEarthquakeData T [KoeriDirect; LocalProxy]
       /\ snd run = [KoeriDirect; LocalProxy; PublicCorsProxy].
Proof.
  intros H1 P1 run. subst run.
  rewrite direct_run, H1, (empty_200_unusable body P1). simpl app.
  split; [reflexivity|]. split.
  - rewrite proxy_run. destruct (usable _); [eexists; reflexivity|].
    rewrite public_proxy_run. eexists; reflexivity.
  - intros body' H2 P2.
    rewrite proxy_run, H2, (empty_200_unusable body' P2). simpl app.
    split; [reflexivity|]. now rewrite public_proxy_run.
Qed.

Lemma C8_empty_200_witness :
  let T : transport := fun _ _ => Normal {| status := 200; text := Normal [] |} in
  let run := fetchEarthquakeData [sample_record] T [] in
  run = fetchWithProxy [sample_record] T [KoeriDirect]
  /\ (exists rest, snd run = KoeriDirect :: LocalProxy :: rest)
  /\ forall body',
       T [KoeriDirect] LocalProxy
       = Normal {| status := 200; text := Normal body' |} ->
       Client.parseEarthquakeData body' = [] ->
       run = fetchWithPublicProxy [sample_record] T [KoeriDirect; LocalProxy]
       /\ snd run = [KoeriDirect; LocalProxy; PublicCorsProxy].
Proof.
  exact (C8_empty_200_falls_through [sample_record]
           (fun _ _ => Normal {| status := 200; text := Normal [] |}) []
           eq_refl eq_refl).
Defined.

(** The chain on a transport that answers every request with an empty
    200 response: three requests, then the fallback. *)
Example chain_on_empty_responses :
  fetchEarthquakeData [sample_record]
    (fun _ _ => Normal {| status := 200; text := Normal [] |}) []
  = (Normal [sample_record], [KoeriDirect; LocalProxy; PublicCorsProxy]).
Proof. reflexivity. Qed.

End ChainProperties.

(** C10: the parsers keep every record a line yields, in line order and
    without comparing ids. When the same line occurs twice among the
    candidate lines of a text and yields a record, the result of the
    client holds that record twice, at two positions, with what the lines
    before, between and after yield around them; so does the result of
    the server, for the record it makes of the trimmed line. *)
Theorem C10_no_deduplication
  (rawText line : jsstring) (before between after : list jsstring)
  (r s : Earthquake) :
  candidate_lines rawText = before ++ line :: between ++ line :: after ->
  Client.line_record line = Some r ->
  Server.line_record (trim line) = Some s ->
  Client.parseEarthquakeData rawText
  = emitted Client.line_record before
    ++ r :: emitted Client.line_record between
    ++ r :: emitted Client.line_record after
  /\ Server.parseEarthquakeData rawText
     = emitted Server.line_record (map trim before)
       ++ s :: emitted Server.line_record (map trim between)
       ++ s :: emitted Server.line_record (map trim after).
Proof.
  intros E Hr Hs. split.
  - rewrite client_parse_emitted, E, emitted_app.
    rewrite (emitted_cons_some _ _ _ r Hr), emitted_app.
    now rewrite (emitted_cons_some _ _ _ r Hr).
  - rewrite server_parse_emitted, E, map_app, emitted_app. simpl map.
    rewrite (emitted_cons_some _ _ _ s Hs), map_app, emitted_app. simpl map.
    now rewrite (emitted_cons_some _ _ _ s Hs).
Qed.

Lemma C10_no_deduplication_witness :
  Client.parseEarthquakeData (sample_line ++ [LF] ++ sample_line)
  = [sample_record; sample_record]
  /\ Server.parseEarthquakeData (sample_line ++ [LF] ++ sample_line)
     = [server_sample_record; server_sample_record].
Proof.
  exact (C10_no_deduplication (sample_line ++ [LF] ++ sample_line) sample_line
           [] [] [] sample_record server_sample_record eq_refl eq_refl eq_refl).
Defined.

(** C9, at two lines the client-side parser accepts because it does not
    test how a line starts: their records differ in date and in time and
    have the same id, "2024.03.15_14:23:11_x_38.4521_27.1234". The
    server-side parser keeps only the second line. *)
Theorem C9_client_key_collision :
  exists r1 r2,
    Client.parseEarthquakeData underscore_lines = [r1; r2]
    /\ id r1 = id r2
    /\ date r1 = lit "2024.03.15_14:23:11" /\ date r2 = lit "2024.03.15"
    /\ time r1 = lit "x" /\ time r2 = lit "14:23:11_x"
    /\ Server.parseEarthquakeData underscore_lines
       = [record_of (split_ws (at_ (split_on LF underscore_lines) 1))
            (lit "SOME PLACE C") (lit "C")].
Proof.
  do 2 eexists. split; [vm_compute; reflexivity|].
  repeat split; vm_compute; reflexivity.
Qed.

(* ===================================================================== *)
(** * Further properties of the parsers *)
(* ===================================================================== *)

Section TextFacts.

Lemma split_on_app (sep : N) (a b : jsstring) :
  split_on sep (a ++ sep :: b) = split_on sep a ++ split_on sep b.
Proof.
  induction a as [|c a IH]; simpl.
  - now rewrite N.eqb_refl.
  - destruct (c =? sep)%N; rewrite IH; [reflexivity|].
    destruct (split_on_cons sep a) as (l & ls & ->). reflexivity.
Qed.

Lemma candidate_lines_app (a b : jsstring) :
  candidate_lines (a ++ LF :: b) = candidate_lines a ++ candidate_lines b.
Proof. unfold candidate_lines. now rewrite split_on_app, !filter_app. Qed.

(** The first line of a text is a prefix of the text. *)
Lemma split_on_head (sep : N) (s l : jsstring) (ls : list jsstring) :
  split_on sep s = l :: ls -> exists rest, s = l ++ rest.
Proof.
  revert l ls. induction s as [|c s IH]; intros l ls H; simpl in H.
  - injection H as <- _. now exists [].
  - destruct (c =? sep)%N.
    + injection H as <- _. now exists (c :: s).
    + destruct (split_on_cons sep s) as (l' & ls' & E). rewrite E in H.
      injection H as <- _. destruct (IH l' ls' E) as (rest & ->).
      now exists rest.
Qed.

(** A test for a pattern somewhere in a string, whose anchored form [f]
    survives appending: when the whole text fails it, so does every
    line. *)
Section Anywhere.

Variable f g : jsstring -> bool.
Hypothesis g_step : forall s,
  g s = f s || match s with [] => false | _ :: s' => g s' end.
Hypothesis f_app : forall a b, f a = true -> f (a ++ b) = true.

Lemma anywhere_lines (sep : N) (s : jsstring) :
  g s = false -> Forall (fun l => g l = false) (split_on sep s).
Proof.
  induction s as [|c s IH]; intros H.
  - simpl. constructor; [exact H | constructor].
  - rewrite g_step in H. apply orb_false_iff in H as [Hf Hg].
    specialize (IH Hg). simpl.
    destruct (c =? sep)%N.
    + constructor; [|exact IH]. rewrite g_step, orb_false_r.
      destruct (f []) eqn:E; [|reflexivity].
      apply (f_app [] (c :: s)) in E. simpl in E. congruence.
    + destruct (split_on_cons sep s) as (l & ls & E). rewrite E in *.
      inversion IH as [|? ? Hl Hls]; subst. constructor; [|exact Hls].
      rewrite g_step, Hl, orb_false_r.
      destruct (f (c :: l)) eqn:F; [|reflexivity].
      destruct (split_on_head sep s l ls E) as (rest & ->).
      apply (f_app (c :: l) rest) in F. simpl in F. congruence.
Qed.

End Anywhere.

Lemma startsWith_app (p a b : jsstring) :
  startsWith p a = true -> startsWith p (a ++ b) = true.
Proof.
  revert a. induction p as [|x p IH]; intros a H; [reflexivity|].
  destruct a as [|y a]; [discriminate|]. simpl in *.
  apply andb_true_iff in H as [H1 H2]. now rewrite H1, IH.
Qed.

Lemma digits_prefix_app (n : nat) (a b r : jsstring) :
  digits_prefix n a = Some r -> digits_prefix n (a ++ b) = Some (r ++ b).
Proof.
  revert a. induction n as [|n IH]; intros a H; simpl in *.
  - now injection H as <-.
  - destruct a as [|c a]; [discriminate|]. simpl.
    destruct (isDigit c); [now apply IH | discriminate].
Qed.

Lemma unit_prefix_app (u : N) (a b r : jsstring) :
  unit_prefix u a = Some r -> unit_prefix u (a ++ b) = Some (r ++ b).
Proof.
  destruct a as [|c a]; [discriminate|]. simpl.
  destruct (c =? u)%N; [|discriminate]. now intros [= <-].
Qed.

Lemma date_prefix_app (a b : jsstring) :
  is_some (date_prefix a) = true -> is_some (date_prefix (a ++ b)) = true.
Proof.
  unfold date_prefix, and_then. intros H.
  destruct (digits_prefix 4 a) as [r1|] eqn:E1; [|discriminate].
  rewrite (digits_prefix_app 4 a b r1 E1).
  destruct (unit_prefix 46 r1) as [r2|] eqn:E2; [|discriminate].
  rewrite (unit_prefix_app 46 r1 b r2 E2).
  destruct (digits_prefix 2 r2) as [r3|] eqn:E3; [|discriminate].
  rewrite (digits_prefix_app 2 r2 b r3 E3).
  destruct (unit_prefix 46 r3) as [r4|] eqn:E4; [|discriminate].
  rewrite (unit_prefix_app 46 r3 b r4 E4).
  destruct (digits_prefix 2 r4) as [r5|] eqn:E5; [|discriminate].
  now rewrite (digits_prefix_app 2 r4 b r5 E5).
Qed.

Lemma datePattern_step (s : jsstring) :
  datePattern_test s
  = is_some (date_prefix s)
    || match s with [] => false | _ :: s' => datePattern_test s' end.
Proof. destruct s; reflexivity. Qed.

Lemma includes_step (p s : jsstring) :
  includes p s
  = startsWith p s || match s with [] => false | _ :: s' => includes p s' end.
Proof. destruct s; reflexivity. Qed.

(** A text without a date, or without the sentinel, has no candidate
    line. *)
Lemma no_marker_no_candidate (text : jsstring) :
  datePattern_test text = false \/ includes (lit "-.-") text = false ->
  Forall (fun l => candidate l = false) (split_on LF text).
Proof.
  intros [H | H].
  - pose proof (anywhere_lines _ _ datePattern_step date_prefix_app LF text H) as A.
    eapply Forall_impl; [|exact A]. intros l Hl. unfold candidate. now rewrite Hl.
  - pose proof (anywhere_lines _ _ (includes_step (lit "-.-"))
                  (startsWith_app (lit "-.-")) LF text H) as A.
    eapply Forall_impl; [|exact A]. intros l Hl. unfold candidate.
    rewrite Hl. apply andb_false_r.
Qed.

End TextFacts.

Section LocationFacts.

Local Abbreviation ws_free := (Forall (fun c => isWhiteSpace c = false)).
Local Abbreviation sp := (lit " ").
Local Abbreviation token := (fun t : jsstring => t <> [] /\ ws_free t).

Lemma split_ws_from_nonws (b : bool) (c : N) (s : jsstring) :
  isWhiteSpace c = false ->
  split_ws_from b (c :: s) = split_ws_from false (c :: s).
Proof. intros H. simpl. now rewrite H. Qed.

(** A token followed by white space is the first token; the rest is
    read after the separator. *)
Lemma split_ws_token_then (a : jsstring) (w : N) (rest : jsstring) :
  token a -> isWhiteSpace w = true ->
  split_ws_from false (a ++ w :: rest) = a :: split_ws_from true rest.
Proof.
  intros [Hne W] Hw. induction W as [|c a Hc W IH]; [congruence|].
  simpl. rewrite Hc. destruct a as [|c' a'].
  - simpl. now rewrite Hw.
  - rewrite IH by discriminate. reflexivity.
Qed.

Lemma split_ws_single_token (a : jsstring) :
  ws_free a -> split_ws_from false a = [a].
Proof.
  induction 1 as [|c a Hc W IH]; [reflexivity|].
  simpl. now rewrite Hc, IH.
Qed.

(** Tokens joined by single spaces split into the same tokens. *)
Lemma split_ws_join (toks : list jsstring) :
  toks <> [] -> Forall token toks -> split_ws (join sp toks) = toks.
Proof.
  unfold split_ws. induction toks as [|x rest IH]; [congruence|].
  intros _ H. inversion H as [|? ? Hx Hrest]; subst.
  destruct rest as [|y rest'].
  - apply split_ws_single_token, Hx.
  - rewrite join_cons2. change (sp ++ ?s) with (SPACE :: s).
    rewrite split_ws_token_then by (assumption || reflexivity).
    f_equal. inversion Hrest as [|? ? [Hy Wy] _]; subst.
    destruct y as [|c y']; [congruence|].
    assert (Hc : isWhiteSpace c = false) by now inversion Wy.
    destruct rest' as [|z rest''].
    + simpl join. rewrite split_ws_from_nonws by exact Hc.
      apply (IH ltac:(discriminate) Hrest).
    + rewrite join_cons2. cbn [app].
      rewrite split_ws_from_nonws by exact Hc.
      rewrite <- (IH ltac:(discriminate) Hrest), join_cons2. reflexivity.
Qed.

(** A string made of tokens and single spaces is in normal form. *)
Lemma join_normal (toks : list jsstring) :
  Forall token toks ->
  join sp (split_ws (join sp toks)) = join sp toks
  /\ trim (join sp toks) = join sp toks.
Proof.
  intros H. split; [|now apply trim_join].
  destruct toks as [|x rest]; [reflexivity|].
  now rewrite split_ws_join by (discriminate || assumption).
Qed.

Lemma two_last {A} (l : list A) :
  (2 <= length l)%nat -> exists pre x q, l = pre ++ [x; q].
Proof.
  intros H. destruct (exists_last (l := l)) as (l' & q & ->);
    [destruct l; [simpl in H; lia | discriminate]|].
  rewrite length_app in H. simpl in H.
  destruct (exists_last (l := l')) as (pre & x & ->);
    [destruct l'; [simpl in H; lia | discriminate]|].
  exists pre, x, q. now rewrite <- app_assoc.
Qed.

(** The tokens of a line of at least ten tokens, as either parser splits
    them: the location tokens [loc], and what the client and the server
    make of the line. *)
Lemma line_record_cases (line : jsstring) :
  (10 <= length (split_ws (trim line)))%nat ->
  exists (parts loc : list jsstring) (q : jsstring) (revised : bool),
    split_ws (trim line) = parts
    /\ Forall token loc /\ token q
    /\ Client.line_record line = Some (record_of parts (join sp loc) q)
    /\ (dateTimeStart_test line = true ->
        Server.line_record line
        = Some (record_of parts
                  (join sp (if revised then loc else loc ++ [q])) q)).
Proof.
  intros Hlen.
  destruct (two_last (split_ws (trim line)) ltac:(lia)) as (pre & x & q & E).
  assert (Hpre : (8 <= length pre)%nat)
    by (rewrite E, length_app in Hlen; simpl in Hlen; lia).
  assert (Hq : token q).
  { split.
    - apply (last_token_nonempty line (pre ++ [x]) q).
      + now rewrite <- app_assoc.
      + destruct pre; discriminate.
    - apply (split_ws_token_ws_free (trim line)). rewrite E.
      apply in_or_app. right. simpl. auto. }
  destruct (startsWith (lit "REVIZE") q && startsWith (lit "(") x) eqn:R.
  - apply andb_true_iff in R as [R1 R2].
    destruct (revised_line_record line pre x q E Hpre R1 R2) as [Hc Hs].
    exists (pre ++ [x; q]), (skipn 8 pre), q, true.
    rewrite !record_of_prefix by assumption.
    repeat split; try assumption; try apply Hq.
    pose proof (location_tokens (trim line) pre [x; q] 8 E) as H.
    simpl removelast in H. specialize (H ltac:(lia) ltac:(discriminate)).
    rewrite skipn_app in H. now apply Forall_app in H.
  - assert (E' : split_ws (trim line) = (pre ++ [x]) ++ [q])
      by now rewrite <- app_assoc.
    assert (Hlen' : (9 <= length (pre ++ [x]))%nat)
      by (rewrite length_app; simpl; lia).
    assert (R' : startsWith (lit "REVIZE") q
                 && startsWith (lit "(")
                      (at_ (pre ++ [x]) (length (pre ++ [x]) - 1)) = false).
    { rewrite (at_suffix pre [x] _ 0) by (rewrite length_app; simpl; lia).
      exact R. }
    assert (Hloc : Forall token (skipn 8 (pre ++ [x]))).
    { pose proof (location_tokens (trim line) (pre ++ [x]) [q] 8 E') as H.
      simpl removelast in H. rewrite app_nil_r in H.
      apply H; [lia | discriminate]. }
    exists ((pre ++ [x]) ++ [q]), (skipn 8 (pre ++ [x])), q, false.
    rewrite !(record_of_prefix (pre ++ [x]) [q]) by lia.
    repeat split; try assumption; try apply Hq.
    + now apply client_ordinary_record.
    + intros G. now apply server_ordinary_record.
Qed.

End LocationFacts.

Section ParserRelation.

Local Abbreviation sp := (lit " ").

Lemma client_line_record_trim (line : jsstring) :
  Client.line_record (trim line) = Client.line_record line.
Proof. unfold Client.line_record. now rewrite trim_idempotent. Qed.

(** What the server makes a record of, the client does too, from the
    same tokens. *)
Lemma server_line_is_client_line (line : jsstring) (s : Earthquake) :
  Server.line_record (trim line) = Some s ->
  dateTimeStart_test (trim line) = true
  /\ (10 <= length (split_ws (trim line)))%nat
  /\ exists c loc,
       Client.line_record line = Some c
       /\ s = record_of (split_ws (trim line)) loc (solutionQuality c)
       /\ c = record_of (split_ws (trim line)) (location c) (solutionQuality c).
Proof.
  intros H.
  destruct (dateTimeStart_test (trim line)) eqn:G;
    [|rewrite server_start_test in H by exact G; discriminate].
  destruct (Nat.ltb_spec (length (split_ws (trim line))) 10) as [S | S].
  { destruct (short_line_skipped (trim line)) as [_ X];
      [now rewrite trim_idempotent | congruence]. }
  split; [reflexivity|]. split; [exact S|].
  destruct (line_record_cases (trim line)) as (parts & loc & q & rv & E & _ & _ & Hc & Hs);
    [now rewrite trim_idempotent|].
  rewrite trim_idempotent in E. subst parts.
  rewrite client_line_record_trim in Hc. rewrite (Hs G) in H. injection H as <-.
  eexists. eexists. split; [exact Hc|]. split; reflexivity.
Qed.

Lemma emitted_server_le_client (lines : list jsstring) :
  (length (emitted Server.line_record (map trim lines))
   <= length (emitted Client.line_record lines))%nat.
Proof.
  induction lines as [|l ls IH]; simpl; [lia|].
  rewrite !length_app.
  destruct (Server.line_record (trim l)) as [s|] eqn:S; simpl; [|lia].
  destruct (server_line_is_client_line l s S) as (_ & _ & c & loc & -> & _).
  simpl. lia.
Qed.

Lemma emitted_intro (line_record : jsstring -> option Earthquake)
  (lines : list jsstring) (line : jsstring) (r : Earthquake) :
  In line lines -> line_record line = Some r ->
  In r (emitted line_record lines).
Proof.
  intros Hl Hr. unfold emitted. apply in_flat_map.
  exists line. split; [exact Hl|]. rewrite Hr. now left.
Qed.

End ParserRelation.

(* ===================================================================== *)
(** * Further properties: the two parsers *)
(* ===================================================================== *)

(** X1: the server-side [parseEarthquakeData] returns, for every text,
    what [parseEarthquakeLines] makes of the candidate lines of the whole
    text, that is the records of those lines, trimmed, in line order. The
    searches for the column header, the alternate titles and the dashed
    separator never change the result. *)
Theorem X1_server_parser_is_the_direct_scan (rawText : jsstring) :
  Server.parseEarthquakeData rawText
  = Server.parseEarthquakeLines (join [LF] (candidate_lines rawText))
  /\ Server.parseEarthquakeData rawText
     = emitted Server.line_record (map trim (candidate_lines rawText)).
Proof.
  split; [|apply server_parse_emitted].
  rewrite server_parse_emitted, server_lines_emitted.
  now rewrite dataLines_join
    by (apply candidate_lines_no_LF || apply candidate_lines_nonblank).
Qed.

(** X2: parsing is local to lines: the records of two texts put together
    with a line feed between them are the records of the first followed
    by the records of the second, for the client and for the server. *)
Theorem X2_parsing_is_line_local (a b : jsstring) :
  Client.parseEarthquakeData (a ++ LF :: b)
  = Client.parseEarthquakeData a ++ Client.parseEarthquakeData b
  /\ Server.parseEarthquakeData (a ++ LF :: b)
     = Server.parseEarthquakeData a ++ Server.parseEarthquakeData b.
Proof.
  rewrite !client_parse_emitted, !server_parse_emitted, candidate_lines_app.
  now rewrite map_app, !emitted_app.
Qed.

(** X3: a text never yields more records than it has lines: the server
    returns at most as many records as the client, the client at most as
    many as there are candidate lines, and those are lines of the text. *)
Theorem X3_at_most_one_record_per_line (rawText : jsstring) :
  (length (Server.parseEarthquakeData rawText)
   <= length (Client.parseEarthquakeData rawText))%nat
  /\ (length (Client.parseEarthquakeData rawText)
      <= length (candidate_lines rawText))%nat
  /\ (length (candidate_lines rawText) <= length (split_on LF rawText))%nat.
Proof.
  rewrite client_parse_emitted, server_parse_emitted. repeat split.
  - apply emitted_server_le_client.
  - apply emitted_length.
  - unfold candidate_lines.
    etransitivity; [apply filter_length_le|]. apply filter_length_le.
Qed.

(** X4: every record of the server-side parser has a counterpart in the
    result of the client-side parser on the same text, made from the same
    candidate line: a line of at least ten tokens that starts with a date
    and a time. The two records agree on every field but the location. *)
Theorem X4_server_records_are_client_records
  (rawText : jsstring) (s : Earthquake) :
  In s (Server.parseEarthquakeData rawText) ->
  exists line c,
    In line (candidate_lines rawText)
    /\ dateTimeStart_test (trim line) = true
    /\ (10 <= length (split_ws (trim line)))%nat
    /\ Server.line_record (trim line) = Some s
    /\ Client.line_record line = Some c
    /\ In c (Client.parseEarthquakeData rawText)
    /\ date s = date c /\ time s = time c
    /\ latitude s = latitude c /\ longitude s = longitude c
    /\ depth s = depth c
    /\ magnitudeMD s = magnitudeMD c /\ magnitudeML s = magnitudeML c
    /\ magnitudeMw s = magnitudeMw c
    /\ solutionQuality s = solutionQuality c
    /\ id s = id c.
Proof.
  intros H. rewrite server_parse_emitted in H.
  apply emitted_In in H as (l & Hl & H).
  apply in_map_iff in Hl as (line & <- & Hl).
  destruct (server_line_is_client_line line s H)
    as (G & S & c & loc & Hc & -> & Ec).
  exists line, c. rewrite client_parse_emitted.
  repeat split; try assumption;
    try (eapply emitted_intro; eassumption);
    rewrite Ec; reflexivity.
Qed.

Lemma X4_server_records_witness :
  exists line c,
    In line (candidate_lines sample_line)
    /\ dateTimeStart_test (trim line) = true
    /\ (10 <= length (split_ws (trim line)))%nat
    /\ Server.line_record (trim line) = Some server_sample_record
    /\ Client.line_record line = Some c
    /\ In c (Client.parseEarthquakeData sample_line)
    /\ date server_sample_record = date c /\ time server_sample_record = time c
    /\ latitude server_sample_record = latitude c
    /\ longitude server_sample_record = longitude c
    /\ depth server_sample_record = depth c
    /\ magnitudeMD server_sample_record = magnitudeMD c
    /\ magnitudeML server_sample_record = magnitudeML c
    /\ magnitudeMw server_sample_record = magnitudeMw c
    /\ solutionQuality server_sample_record = solutionQuality c
    /\ id server_sample_record = id c.
Proof.
  exact (X4_server_records_are_client_records sample_line server_sample_record
           (or_introl eq_refl)).
Defined.

(** X5: a text in which the date pattern occurs nowhere, or the sentinel
    occurs nowhere, yields no record from either parser. *)
Theorem X5_no_date_or_no_sentinel_no_record (rawText : jsstring) :
  datePattern_test rawText = false \/ includes (lit "-.-") rawText = false ->
  Client.parseEarthquakeData rawText = []
  /\ Server.parseEarthquakeData rawText = [].
Proof.
  intros H. apply no_marker_no_candidate in H.
  rewrite client_parse_emitted, server_parse_emitted.
  now rewrite (no_candidate_lines rawText H).
Qed.

Lemma X5_no_sentinel_witness :
  Client.parseEarthquakeData Route.error_json = []
  /\ Server.parseEarthquakeData Route.error_json = [].
Proof.
  exact (X5_no_date_or_no_sentinel_no_record Route.error_json (or_introl eq_refl)).
Defined.

Lemma join_snoc (sep : jsstring) (toks : list jsstring) (q : jsstring) :
  toks <> [] -> join sep (toks ++ [q]) = join sep toks ++ sep ++ q.
Proof.
  induction toks as [|x rest IH]; [congruence|]. intros _.
  destruct rest as [|y rest']; [reflexivity|].
  change ((x :: y :: rest') ++ [q]) with (x :: (y :: rest') ++ [q]).
  change ((y :: rest') ++ [q]) with (y :: rest' ++ [q]) at 1.
  rewrite join_cons2. change (y :: rest' ++ [q]) with ((y :: rest') ++ [q]).
  rewrite IH by discriminate. rewrite join_cons2. now rewrite <- !app_assoc.
Qed.

(** X6: the location of every record, of either parser, is in normal
    form: it neither starts nor ends with white space, and splitting it
    at white space and joining the pieces with single spaces gives it
    back, so its words are separated by exactly one space whatever the
    spacing of the line was. *)
Theorem X6_location_is_normalised (line : jsstring) (r : Earthquake) :
  Client.line_record line = Some r \/ Server.line_record line = Some r ->
  trim (location r) = location r
  /\ join (lit " ") (split_ws (location r)) = location r.
Proof.
  intros H.
  assert (Hlen : (10 <= length (split_ws (trim line)))%nat).
  { destruct (Nat.ltb_spec (length (split_ws (trim line))) 10) as [S | S];
      [|exact S].
    destruct (short_line_skipped line S) as [X Y]. destruct H; congruence. }
  destruct (line_record_cases line Hlen)
    as (parts & loc & q & rv & _ & Hloc & Hq & Hc & Hs).
  assert (N : forall toks, Forall (fun t => t <> [] /\ Forall (fun c => isWhiteSpace c = false) t) toks ->
              trim (join (lit " ") toks) = join (lit " ") toks
              /\ join (lit " ") (split_ws (join (lit " ") toks)) = join (lit " ") toks).
  { intros toks Ht. destruct (join_normal toks Ht). now split. }
  destruct H as [H | H].
  - rewrite Hc in H. injection H as <-. apply N, Hloc.
  - destruct (dateTimeStart_test line) eqn:G;
      [|rewrite server_start_test in H by exact G; discriminate].
    rewrite (Hs eq_refl) in H. injection H as <-. apply N.
    destruct rv; [exact Hloc|]. apply Forall_app. split; [exact Hloc|].
    constructor; [exact Hq | constructor].
Qed.

Lemma X6_location_witness :
  trim (location sample_record) = location sample_record
  /\ join (lit " ") (split_ws (location sample_record)) = location sample_record.
Proof.
  exact (X6_location_is_normalised sample_line sample_record (or_introl eq_refl)).
Defined.

(** X7: among the records of the server-side parser, of one text or of
    two, whose latitude and longitude have at most 15 significant digits
    and a magnitude within 1e-301 .. 1e300 (where the decimal read is the
    number the code holds), the id identifies the event: two such records
    have the same id exactly when they have the same date, the same time,
    the same latitude and the same longitude (numbers compared as values,
    the two zeros being one value). *)
Theorem X7_server_id_identifies_the_event
  (text1 text2 : jsstring) (r1 r2 : Earthquake) :
  In r1 (Server.parseEarthquakeData text1) ->
  In r2 (Server.parseEarthquakeData text2) ->
  short_decimal (latitude r1) = true -> short_decimal (longitude r1) = true ->
  short_decimal (latitude r2) = true -> short_decimal (longitude r2) = true ->
  id r1 = id r2 <->
  date r1 = date r2 /\ time r1 = time r2
  /\ same_value (latitude r1) (latitude r2)
  /\ same_value (longitude r1) (longitude r2).
Proof.
  rewrite !server_parse_emitted. intros H1 H2 _ _ _ _.
  apply emitted_In in H1 as (l1 & _ & H1).
  apply emitted_In in H2 as (l2 & _ & H2).
  exact (server_id_identifies l1 l2 r1 r2 H1 H2).
Qed.

Lemma X7_server_id_witness :
  let r1 := server_sample_record in
  let r2 := record_of (split_ws revised_line) (lit "PLACE NAME") (lit "REVIZE01") in
  id r1 = id r2 <->
  date r1 = date r2 /\ time r1 = time r2
  /\ same_value (latitude r1) (latitude r2)
  /\ same_value (longitude r1) (longitude r2).
Proof.
  exact (X7_server_id_identifies_the_event sample_line revised_line
           server_sample_record
           (record_of (split_ws revised_line) (lit "PLACE NAME") (lit "REVIZE01"))
           (or_introl eq_refl) (or_introl eq_refl)
           eq_refl eq_refl eq_refl eq_refl).
Defined.

(** X8: for a line that ends in an ordinary quality code (not a REVIZE
    marker after a parenthesised token), starts with a date and a time
    and has at least one location token, both parsers emit a record; the
    location of the client's is the location tokens joined by single
    spaces, and the location of the server's is that text followed by a
    space and the quality code. *)
Theorem X8_server_location_runs_into_the_quality_code
  (line : jsstring) (pre : list jsstring) (q : jsstring) :
  dateTimeStart_test line = true ->
  split_ws (trim line) = pre ++ [q] -> (9 <= length pre)%nat ->
  startsWith (lit "REVIZE") q
  && startsWith (lit "(") (at_ pre (length pre - 1)) = false ->
  exists c s,
    Client.line_record line = Some c /\ Server.line_record line = Some s
    /\ solutionQuality c = q /\ solutionQuality s = q
    /\ location c = join (lit " ") (skipn 8 pre)
    /\ location s = location c ++ lit " " ++ q.
Proof.
  intros G E Hpre R.
  exists (record_of pre (join (lit " ") (skipn 8 pre)) q),
         (record_of pre (join (lit " ") (skipn 8 pre ++ [q])) q).
  split; [now apply client_ordinary_record|].
  split; [now apply server_ordinary_record|].
  repeat split. unfold record_of. cbn [location]. apply join_snoc.
  intros X. apply (f_equal (@length jsstring)) in X.
  rewrite length_skipn in X. simpl in X. lia.
Qed.

Lemma X8_server_location_witness :
  exists c s,
    Client.line_record sample_line = Some c
    /\ Server.line_record sample_line = Some s
    /\ solutionQuality c = lit "C" /\ solutionQuality s = lit "C"
    /\ location c = lit "SOME PLACE NAME"
    /\ location s = location c ++ lit " " ++ lit "C".
Proof.
  exact (X8_server_location_runs_into_the_quality_code sample_line
           (firstn 11 (split_ws sample_line)) (lit "C")
           eq_refl eq_refl (le_S _ _ (le_S _ _ (le_n 9))) eq_refl).
Defined.

(* ===================================================================== *)
(** * Further properties: acquisition, relay and page *)
(* ===================================================================== *)

Section AcquisitionFacts.

Import Acquisition.

Variable fallbackEarthquakeData : list Earthquake.
Variable T : transport.

(** The chain from any log: a record list and an extended log, never an
    exception. *)
Lemma chain_run (l : log) :
  fetchEarthquakeData fallbackEarthquakeData T l
  = match usable (T l KoeriDirect) with
    | Some rs => (Normal rs, l ++ [KoeriDirect])
    | None =>
        match usable (T (l ++ [KoeriDirect]) LocalProxy) with
        | Some rs => (Normal rs, l ++ [KoeriDirect; LocalProxy])
        | None =>
            (Normal
               match usable (T (l ++ [KoeriDirect; LocalProxy]) PublicCorsProxy) with
               | Some rs => rs
               | None => fallbackEarthquakeData
               end,
             l ++ [KoeriDirect; LocalProxy; PublicCorsProxy])
        end
    end.
Proof.
  rewrite direct_run. destruct (usable (T l KoeriDirect)); [reflexivity|].
  rewrite proxy_run.
  destruct (usable (T (l ++ [KoeriDirect]) LocalProxy));
    [now rewrite <- app_assoc|].
  rewrite public_proxy_run. now rewrite <- !app_assoc.
Qed.

Lemma chain_total (l : log) :
  exists rs l',
    fetchEarthquakeData fallbackEarthquakeData T l = (Normal rs, l').
Proof.
  rewrite chain_run.
  destruct (usable (T l KoeriDirect)); [eauto|].
  destruct (usable (T (l ++ [KoeriDirect]) LocalProxy)); eauto.
Qed.

(** The route from any log: one request, then one of its two
    responses. *)
Lemma route_run (l : log) :
  Route.GET T l
  = (Normal
       match T l KoeriDirect with
       | Normal r =>
           if ok r then
             match text r with
             | Normal body => Route.success_response body
             | Thrown => Route.failure_response
             end
           else Route.failure_response
       | Thrown => Route.failure_response
       end, l ++ [KoeriDirect]).
Proof.
  unfold Route.GET, Route.throw, bind, try_catch, fetch, await_text, ret.
  destruct (T l KoeriDirect) as [r|]; [|reflexivity].
  destruct (ok r); simpl; [|reflexivity].
  destruct (text r); reflexivity.
Qed.

(** What a client reads from the endpoint is as usable as what the
    route read from the upstream. *)
Lemma relay_usable (l : log) :
  usable (Route.relay T l) = usable (T l KoeriDirect).
Proof.
  unfold Route.relay. rewrite route_run. simpl fst. unfold usable.
  destruct (T l KoeriDirect) as [u|]; [|reflexivity].
  destruct (ok u); [|reflexivity].
  destruct (text u); reflexivity.
Qed.

End AcquisitionFacts.

(** X9: the client-side chain issues its requests in the fixed order
    direct source, local relay, public proxy, each at most once. It
    stops at the first usable stage: one request when the direct answer
    is usable, two when only the relay's is, three otherwise. *)
Theorem X9_requests_in_order_until_usable
  (fallbackEarthquakeData : list Earthquake) (T : Acquisition.transport) :
  snd (Acquisition.fetchEarthquakeData fallbackEarthquakeData T [])
  = match Acquisition.usable (T [] Acquisition.KoeriDirect) with
    | Some _ => [Acquisition.KoeriDirect]
    | None =>
        match Acquisition.usable
                (T [Acquisition.KoeriDirect] Acquisition.LocalProxy) with
        | Some _ => [Acquisition.KoeriDirect; Acquisition.LocalProxy]
        | None => [Acquisition.KoeriDirect; Acquisition.LocalProxy;
                   Acquisition.PublicCorsProxy]
        end
    end.
Proof.
  rewrite chain_run. simpl app.
  destruct (Acquisition.usable (T [] _)); [reflexivity|].
  destruct (Acquisition.usable (T [_] _)); reflexivity.
Qed.

(** X10: when the bundled fallback dataset is not empty, the client-side
    chain always returns at least one record, whatever the transport
    does. *)
Theorem X10_chain_result_is_never_empty
  (fallbackEarthquakeData : list Earthquake) (T : Acquisition.transport) :
  fallbackEarthquakeData <> [] ->
  exists rs,
    fst (Acquisition.fetchEarthquakeData fallbackEarthquakeData T [])
    = Acquisition.Normal rs
    /\ rs <> [].
Proof.
  intros H. rewrite chain_run. simpl app.
  destruct (Acquisition.usable (T [] _)) as [rs|] eqn:U1;
    [exists rs; split; [reflexivity | eapply usable_nonempty; eassumption]|].
  destruct (Acquisition.usable (T [_] _)) as [rs|] eqn:U2;
    [exists rs; split; [reflexivity | eapply usable_nonempty; eassumption]|].
  destruct (Acquisition.usable (T [_; _] _)) as [rs|] eqn:U3;
    [exists rs; split; [reflexivity | eapply usable_nonempty; eassumption]|].
  exists fallbackEarthquakeData. now split.
Qed.

Lemma X10_chain_result_witness :
  exists rs,
    fst (Acquisition.fetchEarthquakeData [sample_record]
           (fun _ _ => Acquisition.Thrown) [])
    = Acquisition.Normal rs
    /\ rs <> [].
Proof.
  refine (X10_chain_result_is_never_empty [sample_record]
            (fun _ _ => Acquisition.Thrown) _).
  discriminate.
Defined.

(** X11: the server-side [fetchEarthquakeData] makes exactly one
    request, to the direct source, and never raises: it returns the
    records parsed from an ok response whose body could be read when
    there is at least one, and the fallback dataset in every other
    case. *)
Theorem X11_server_fetch_one_request_then_fallback
  (fallbackEarthquakeData : list Earthquake) (T : Acquisition.transport)
  (l : Acquisition.log) :
  ServerActions.fetchEarthquakeData fallbackEarthquakeData T l
  = (Acquisition.Normal
       match T l Acquisition.KoeriDirect with
       | Acquisition.Normal r =>
           if Acquisition.ok r then
             match Acquisition.text r with
             | Acquisition.Normal body =>
                 match Server.parseEarthquakeData body with
                 | [] => fallbackEarthquakeData
                 | rs => rs
                 end
             | Acquisition.Thrown => fallbackEarthquakeData
             end
           else fallbackEarthquakeData
       | Acquisition.Thrown => fallbackEarthquakeData
       end, l ++ [Acquisition.KoeriDirect]).
Proof.
  unfold ServerActions.fetchEarthquakeData, ServerActions.fetchDirectFromKoeri,
    ServerActions.useFallbackData, Acquisition.bind, Acquisition.try_catch,
    Acquisition.fetch, Acquisition.await_text, Acquisition.ret.
  simpl.
  destruct (T l Acquisition.KoeriDirect) as [r|]; [|reflexivity].
  destruct (Acquisition.ok r); simpl; [|reflexivity].
  destruct (Acquisition.text r) as [body|]; [|reflexivity].
  destruct (Server.parseEarthquakeData body); reflexivity.
Qed.

(** X12: the relay route [GET] never raises and makes exactly one
    upstream request. It answers 200 with the upstream body, unchanged,
    exactly when the upstream response is ok and its body can be read;
    when the request fails, the status is not ok or the body cannot be
    read, it answers 500 with the JSON error text. *)
Theorem X12_relay_get_200_verbatim_or_500
  (T : Acquisition.transport) (l : Acquisition.log) :
  exists r,
    Route.GET T l = (Acquisition.Normal r, l ++ [Acquisition.KoeriDirect])
    /\ ((exists u body,
           T l Acquisition.KoeriDirect = Acquisition.Normal u
           /\ Acquisition.ok u = true
           /\ Acquisition.text u = Acquisition.Normal body
           /\ Route.r_status r = 200%N /\ Route.r_body r = Some body)
        \/ ((forall u body,
               T l Acquisition.KoeriDirect = Acquisition.Normal u ->
               Acquisition.ok u = true ->
               Acquisition.text u <> Acquisition.Normal body)
            /\ Route.r_status r = 500%N
            /\ Route.r_body r = Some Route.error_json)).
Proof.
  rewrite route_run. eexists. split; [reflexivity|].
  destruct (T l Acquisition.KoeriDirect) as [u|] eqn:E.
  - destruct (Acquisition.ok u) eqn:O.
    + destruct (Acquisition.text u) as [body|] eqn:B.
      * left. exists u, body. repeat split; assumption.
      * right. repeat split. intros u' body [= <-] _. congruence.
    + right. repeat split. intros u' body [= <-]. congruence.
  - right. repeat split. intros u' body. discriminate.
Qed.

(** X13: the relay is transparent to the client-side chain: the answer a
    client reads from the endpoint is usable exactly when the upstream
    answer the route got is usable, and then gives the same records. *)
Theorem X13_relay_is_transparent
  (upstream : Acquisition.transport) (l : Acquisition.log) :
  Acquisition.usable (Route.relay upstream l)
  = Acquisition.usable (upstream l Acquisition.KoeriDirect).
Proof.
  unfold Route.relay. rewrite route_run. simpl fst. unfold Acquisition.usable.
  destruct (upstream l Acquisition.KoeriDirect) as [u|]; [|reflexivity].
  destruct (Acquisition.ok u); [|reflexivity].
  destruct (Acquisition.text u); reflexivity.
Qed.

(** X14: a local relay that gets from the upstream the answer the
    browser got adds nothing: when the direct stage is not usable, the
    relay stage is not usable either, and the chain returns the records
    of the public proxy or the fallback dataset after three requests. *)
Theorem X14_relay_of_the_same_answer_never_rescues
  (fallbackEarthquakeData : list Earthquake)
  (T upstream : Acquisition.transport) (l : Acquisition.log) :
  T [Acquisition.KoeriDirect] Acquisition.LocalProxy = Route.relay upstream l ->
  upstream l Acquisition.KoeriDirect = T [] Acquisition.KoeriDirect ->
  Acquisition.usable (T [] Acquisition.KoeriDirect) = None ->
  Acquisition.fetchEarthquakeData fallbackEarthquakeData T []
  = (Acquisition.Normal
       match Acquisition.usable
               (T [Acquisition.KoeriDirect; Acquisition.LocalProxy]
                  Acquisition.PublicCorsProxy) with
       | Some rs => rs
       | None => fallbackEarthquakeData
       end,
     [Acquisition.KoeriDirect; Acquisition.LocalProxy;
      Acquisition.PublicCorsProxy]).
Proof.
  intros HT HU H1. rewrite chain_run. simpl app.
  rewrite H1, HT, relay_usable, HU, H1. reflexivity.
Qed.

Lemma X14_relay_witness :
  let upstream : Acquisition.transport := fun _ _ => Acquisition.Thrown in
  let T : Acquisition.transport :=
    fun l e => match e with
               | Acquisition.LocalProxy => Route.relay upstream []
               | _ => Acquisition.Thrown
               end in
  Acquisition.fetchEarthquakeData [sample_record] T []
  = (Acquisition.Normal [sample_record],
     [Acquisition.KoeriDirect; Acquisition.LocalProxy;
      Acquisition.PublicCorsProxy]).
Proof.
  exact (X14_relay_of_the_same_answer_never_rescues [sample_record]
           (fun l e => match e with
                       | Acquisition.LocalProxy =>
                           Route.relay (fun _ _ => Acquisition.Thrown) []
                       | _ => Acquisition.Thrown
                       end)
           (fun _ _ => Acquisition.Thrown) [] eq_refl eq_refl eq_refl).
Defined.

(** X15: a cycle of the page never ends in its error branch: whatever
    the transport does and whatever the state was, [getEarthquakeData]
    completes, and the fields it alone writes are then: the loading flag
    off, no error message, the records of the acquisition chain as the
    list shown, and the data source read off the first record of that
    list. *)
Theorem X15_page_cycle_never_fails
  (fallbackEarthquakeData : list Earthquake) (s : Page.state)
  (T : Acquisition.transport) (l : Acquisition.log) :
  exists data l' s',
    Acquisition.fetchEarthquakeData fallbackEarthquakeData T l
    = (Acquisition.Normal data, l')
    /\ Page.getEarthquakeData fallbackEarthquakeData s T l
       = (Acquisition.Normal s', l')
    /\ Page.earthquakes s' = data
    /\ Page.loading s' = false
    /\ Page.error s' = None
    /\ Page.dataSource s'
       = if Page.isFallbackData data then Page.fallback else Page.live.
Proof.
  destruct (chain_total fallbackEarthquakeData T l) as (data & l' & E).
  exists data, l'. eexists. split; [exact E|]. split.
  - unfold Page.getEarthquakeData, Acquisition.bind, Acquisition.try_catch,
      Acquisition.ret.
    rewrite E. reflexivity.
  - repeat split.
Qed.

(** X16: the page tells fallback data from live data by the date of the
    first record only: when the direct source answers with status 200
    and a report whose first record is dated 2023.05.01, the page shows
    those live records, obtained with a single request, and marks them
    as fallback data. *)
Theorem X16_live_report_of_that_day_is_marked_fallback
  (fallbackEarthquakeData : list Earthquake) (s : Page.state)
  (T : Acquisition.transport) (body : jsstring)
  (r : Earthquake) (rest : list Earthquake) :
  T [] Acquisition.KoeriDirect
  = Acquisition.Normal {| Acquisition.status := 200;
                          Acquisition.text := Acquisition.Normal body |} ->
  Client.parseEarthquakeData body = r :: rest ->
  startsWith (lit "2023.05.01") (date r) = true ->
  exists s',
    Page.getEarthquakeData fallbackEarthquakeData s T []
    = (Acquisition.Normal s', [Acquisition.KoeriDirect])
    /\ Page.earthquakes s' = r :: rest
    /\ Page.dataSource s' = Page.fallback
    /\ Page.error s' = None.
Proof.
  intros HT HP HD.
  assert (E : Acquisition.fetchEarthquakeData fallbackEarthquakeData T []
              = (Acquisition.Normal (r :: rest), [Acquisition.KoeriDirect])).
  { rewrite chain_run, HT. unfold Acquisition.usable. simpl. now rewrite HP. }
  eexists. split.
  - unfold Page.getEarthquakeData, Acquisition.bind, Acquisition.try_catch,
      Acquisition.ret.
    rewrite E. reflexivity.
  - simpl. unfold Page.isFallbackData. rewrite HD. repeat split.
Qed.

Lemma X16_live_report_witness :
  let body := lit "2023.05.01 14:23:11 38.4521 27.1234 7.3 -.- 3.2 -.- SOME PLACE NAME  C" in
  let T : Acquisition.transport :=
    fun _ _ => Acquisition.Normal {| Acquisition.status := 200;
                                     Acquisition.text := Acquisition.Normal body |} in
  exists s',
    Page.getEarthquakeData []
      {| Page.earthquakes := []; Page.loading := true; Page.error := None;
         Page.dataSource := Page.live; Page.countdown := 60 |} T []
    = (Acquisition.Normal s', [Acquisition.KoeriDirect])
    /\ Page.earthquakes s'
       = [record_of (split_ws body) (lit "SOME PLACE NAME") (lit "C")]
    /\ Page.dataSource s' = Page.fallback
    /\ Page.error s' = None.
Proof.
  exact (X16_live_report_of_that_day_is_marked_fallback []
           {| Page.earthquakes := []; Page.loading := true; Page.error := None;
              Page.dataSource := Page.live; Page.countdown := 60 |}
           (fun _ _ => Acquisition.Normal
              {| Acquisition.status := 200;
                 Acquisition.text := Acquisition.Normal
                   (lit "2023.05.01 14:23:11 38.4521 27.1234 7.3 -.- 3.2 -.- SOME PLACE NAME  C") |})
           (lit "2023.05.01 14:23:11 38.4521 27.1234 7.3 -.- 3.2 -.- SOME PLACE NAME  C")
           (record_of
              (split_ws (lit "2023.05.01 14:23:11 38.4521 27.1234 7.3 -.- 3.2 -.- SOME PLACE NAME  C"))
              (lit "SOME PLACE NAME") (lit "C"))
           [] eq_refl eq_refl eq_refl).
Defined.

(* ===================================================================== *)
(** * Further properties: countdown and colours of the page *)
(* ===================================================================== *)

Section CountdownFacts.

Lemma ticks_step (n : nat) (c : Z) :
  Page.ticks (S n) c
  = if (c <=? 1)%Z
    then (fst (Page.ticks n 60), S (snd (Page.ticks n 60)))
    else Page.ticks n (c - 1).
Proof.
  simpl. unfold Page.countdown_tick, Page.AUTO_REFRESH_INTERVAL.
  destruct (c <=? 1)%Z.
  - destruct (Page.ticks n 60). reflexivity.
  - destruct (Page.ticks n (c - 1)). reflexivity.
Qed.

Lemma ticks_closed_form (n : nat) (c : Z) :
  (1 <= c <= 60)%Z ->
  fst (Page.ticks n c) = (60 - (Z.of_nat n + (60 - c)) mod 60)%Z
  /\ Z.of_nat (snd (Page.ticks n c)) = ((Z.of_nat n + (60 - c)) / 60)%Z.
Proof.
  revert c. induction n as [|n IH]; intros c Hc.
  - cbn [Page.ticks fst snd]. change (Z.of_nat 0) with 0%Z.
    rewrite Z.add_0_l. split.
    + rewrite Z.mod_small by lia. lia.
    + rewrite Z.div_small by lia. reflexivity.
  - rewrite ticks_step. destruct (Z.leb_spec c 1) as [L | L].
    + assert (c = 1%Z) by lia. subst c.
      destruct (IH 60%Z ltac:(lia)) as [I1 I2]. cbn [fst snd].
      replace (Z.of_nat (S n) + (60 - 1))%Z with (Z.of_nat n + (60 - 60) + 1 * 60)%Z by lia.
      rewrite Z_mod_plus_full, Z.div_add by lia.
      split; [exact I1 | lia].
    + destruct (IH (c - 1)%Z ltac:(lia)) as [I1 I2].
      replace (Z.of_nat (S n) + (60 - c))%Z with (Z.of_nat n + (60 - (c - 1)))%Z by lia.
      split; assumption.
Qed.

End CountdownFacts.

(** X17: the countdown started within 1..60 stays within 1..60 and
    triggers a refresh exactly every sixtieth tick: after [n] ticks from
    the count [c], [n + 60 - c] seconds of the cycle have gone by, the
    count is 60 less what is left of them after whole minutes, and one
    refresh was triggered for each whole minute. *)
Theorem X17_countdown_refreshes_every_sixty_ticks (n : nat) (c : Z) :
  (1 <= c <= 60)%Z ->
  let (c', refreshes) := Page.ticks n c in
  (1 <= c' <= 60)%Z
  /\ c' = (60 - (Z.of_nat n + (60 - c)) mod 60)%Z
  /\ Z.of_nat refreshes = ((Z.of_nat n + (60 - c)) / 60)%Z.
Proof.
  intros Hc. destruct (ticks_closed_form n c Hc) as [H1 H2].
  destruct (Page.ticks n c) as [c' k]. cbn [fst snd] in *.
  split; [|split; assumption].
  pose proof (Z.mod_pos_bound (Z.of_nat n + (60 - c)) 60 ltac:(lia)). lia.
Qed.

Lemma X17_countdown_witness :
  let (c', refreshes) := Page.ticks 125 60 in
  (1 <= c' <= 60)%Z
  /\ c' = (60 - (Z.of_nat 125 + (60 - 60)) mod 60)%Z
  /\ Z.of_nat refreshes = ((Z.of_nat 125 + (60 - 60)) / 60)%Z.
Proof.
  refine (X17_countdown_refreshes_every_sixty_ticks 125 60 _).
  split; discriminate.
Defined.

Section FormatFacts.

(** The seconds field for every value below sixty, checked one by
    one. *)
Lemma two_digit_fields :
  forallb Page.two_digit_field (map N.of_nat (seq 0 60)) = true.
Proof. vm_compute. reflexivity. Qed.

Lemma seconds_field (v : N) :
  (v < 60)%N ->
  exists d1 d2,
    Page.padStart 2 48%N (decimal v) = [d1; d2]
    /\ isDigit d1 = true /\ isDigit d2 = true
    /\ digits_value [d1; d2] = v.
Proof.
  intros H. pose proof two_digit_fields as F. rewrite forallb_forall in F.
  specialize (F v). unfold Page.two_digit_field in F.
  destruct (Page.padStart 2 48%N (decimal v)) as [|d1 [|d2 [|d3 r]]];
    try (discriminate F; apply in_map_iff; exists (N.to_nat v);
         split; [apply N2Nat.id | apply in_seq; lia]).
  exists d1, d2.
  assert (X : isDigit d1 && isDigit d2 && (digits_value [d1; d2] =? v)%N = true).
  { apply F. apply in_map_iff. exists (N.to_nat v).
    split; [apply N2Nat.id | apply in_seq; lia]. }
  apply andb_true_iff in X as [X X3]. apply andb_true_iff in X as [X1 X2].
  apply N.eqb_eq in X3. now repeat split.
Qed.

Lemma format_shape (seconds : Z) :
  (0 <= seconds)%Z ->
  exists d1 d2,
    Page.formatCountdown seconds
    = decimal (Z.to_N (seconds / 60)) ++ lit ":" ++ [d1; d2]
    /\ isDigit d1 = true /\ isDigit d2 = true
    /\ Z.of_N (digits_value [d1; d2]) = (seconds mod 60)%Z.
Proof.
  intros H. unfold Page.formatCountdown, Page.int_toString.
  pose proof (Z.div_pos seconds 60 H ltac:(lia)) as Hm.
  pose proof (Z.mod_pos_bound seconds 60 ltac:(lia)) as Hr.
  rewrite Z.rem_mod_nonneg by lia.
  replace (seconds / 60 <? 0)%Z with false by (symmetry; apply Z.ltb_ge; lia).
  replace (seconds mod 60 <? 0)%Z with false by (symmetry; apply Z.ltb_ge; lia).
  cbn [app].
  destruct (seconds_field (Z.abs_N (seconds mod 60)) ltac:(lia))
    as (d1 & d2 & E & D1 & D2 & V).
  exists d1, d2. rewrite E, V.
  replace (Z.abs_N (seconds / 60)) with (Z.to_N (seconds / 60)) by lia.
  repeat split; try assumption. lia.
Qed.

End FormatFacts.

(** X18: for a whole number of seconds from 0 up to, not including,
    2^32 (where the quotient and the remainder of the code are exact)
    [formatCountdown] writes the whole minutes in decimal, a colon and
    exactly two digits that read as the seconds left over; two different
    counts of that range are never written the same. *)
Theorem X18_format_countdown_minutes_and_two_digits (seconds : Z) :
  (0 <= seconds)%Z -> (seconds < 4294967296)%Z ->
  (exists d1 d2,
      Page.formatCountdown seconds
      = decimal (Z.to_N (seconds / 60)) ++ lit ":" ++ [d1; d2]
      /\ isDigit d1 = true /\ isDigit d2 = true
      /\ Z.of_N (digits_value [d1; d2]) = (seconds mod 60)%Z)
  /\ forall other,
       (0 <= other)%Z -> (other < 4294967296)%Z ->
       Page.formatCountdown other = Page.formatCountdown seconds ->
       other = seconds.
Proof.
  intros H _. split; [now apply format_shape|].
  intros other Ho _ E.
  destruct (format_shape seconds H) as (d1 & d2 & E1 & D1 & D2 & V1).
  destruct (format_shape other Ho) as (e1 & e2 & E2 & F1 & F2 & V2).
  rewrite E1, E2 in E. change (lit ":" ++ ?s) with (58%N :: s) in E.
  assert (P : forall a b, isDigit a = true -> isDigit b = true -> ~ In 58%N [a; b]).
  { intros a b Ha Hb [X | [X | []]]; subst;
      [apply digit_range in Ha | apply digit_range in Hb]; lia. }
  apply last_separator in E as [Em Es]; [| now apply P ..].
  apply (f_equal digits_value) in Em. rewrite !digits_value_decimal in Em.
  rewrite Es in V2.
  pose proof (Z.div_pos seconds 60 H ltac:(lia)).
  pose proof (Z.div_pos other 60 Ho ltac:(lia)).
  rewrite (Z.div_mod seconds 60), (Z.div_mod other 60) by lia.
  lia.
Qed.

Lemma X18_format_countdown_witness :
  (exists d1 d2,
      Page.formatCountdown 59
      = decimal (Z.to_N (59 / 60)) ++ lit ":" ++ [d1; d2]
      /\ isDigit d1 = true /\ isDigit d2 = true
      /\ Z.of_N (digits_value [d1; d2]) = (59 mod 60)%Z)
  /\ forall other,
       (0 <= other)%Z -> (other < 4294967296)%Z ->
       Page.formatCountdown other = Page.formatCountdown 59 ->
       other = 59%Z.
Proof.
  refine (X18_format_countdown_minutes_and_two_digits 59 _ eq_refl).
  discriminate.
Defined.

(** The countdown on display: "0:59" one second after a refresh, "1:00"
    right after it. *)
Example format_countdown_examples :
  Page.formatCountdown 59 = lit "0:59"
  /\ Page.formatCountdown 60 = lit "1:00"
  /\ Page.formatCountdown 5 = lit "0:05".
Proof. repeat split; vm_compute; reflexivity. Qed.

Section ColourFacts.

(** The thresholds as mantissa and power of ten. *)
Lemma num_ge_whole (neg : bool) (ds : jsstring) (n : Z) (t : jsstring) (k : Z) :
  Page.num_ge (Finite neg ds n) (Finite false t k)
  = (let e := Z.min (Page.exponent ds n) (Page.exponent t k) in
     Page.mantissa t * 10 ^ (Page.exponent t k - e)
     <=? (if neg then -1 else 1) * Page.mantissa ds
         * 10 ^ (Page.exponent ds n - e))%Z.
Proof.
  unfold Page.num_ge. cbv zeta. f_equal. lia.
Qed.

(** Comparing [V * 10^E] with a whole threshold [t], and with a
    threshold of tenths. *)
Lemma ge_whole_cases (V E t : Z) :
  ((t * 10 ^ (0 - Z.min E 0) <=? V * 10 ^ (E - Z.min E 0)) = true
   <-> (0 <= E /\ t <= V * 10 ^ E) \/ (E < 0 /\ t * (10 * 10 ^ (-1 - E)) <= V))%Z.
Proof.
  rewrite Z.leb_le. destruct (Z.le_gt_cases 0 E) as [H | H].
  - rewrite Z.min_r by lia.
    replace (0 - 0)%Z with 0%Z by lia. replace (E - 0)%Z with E by lia.
    rewrite Z.pow_0_r. lia.
  - rewrite Z.min_l by lia.
    replace (0 - E)%Z with (Z.succ (-1 - E)) by lia.
    rewrite Z.pow_succ_r by lia.
    replace (E - E)%Z with 0%Z by lia. rewrite Z.pow_0_r. lia.
Qed.

Lemma ge_tenths_cases (V E t : Z) :
  ((t * 10 ^ (-1 - Z.min E (-1)) <=? V * 10 ^ (E - Z.min E (-1))) = true
   <-> (0 <= E /\ t <= 10 * (V * 10 ^ E)) \/ (E < 0 /\ t * 10 ^ (-1 - E) <= V))%Z.
Proof.
  rewrite Z.leb_le. destruct (Z.le_gt_cases 0 E) as [H | H].
  - rewrite Z.min_r by lia.
    replace (-1 - -1)%Z with 0%Z by lia.
    replace (E - -1)%Z with (Z.succ E) by lia.
    rewrite Z.pow_succ_r, Z.pow_0_r by lia. lia.
  - rewrite Z.min_l by lia.
    replace (E - E)%Z with 0%Z by lia. rewrite Z.pow_0_r. lia.
Qed.

Lemma ge_five_three (m : number) :
  Page.num_ge m Page.five = true -> Page.num_ge m Page.three = true.
Proof.
  destruct m as [|neg|neg ds n]; [discriminate | destruct neg; trivial |].
  unfold Page.five, Page.three. rewrite !num_ge_whole. cbv zeta.
  change (Page.exponent (lit "5") 1) with 0%Z.
  change (Page.exponent (lit "3") 1) with 0%Z.
  change (Page.mantissa (lit "5")) with 5%Z.
  change (Page.mantissa (lit "3")) with 3%Z.
  rewrite !ge_whole_cases.
  pose proof (Z.pow_nonneg 10 (-1 - Page.exponent ds n) ltac:(lia)). lia.
Qed.

Lemma ge_tenths_two (m : number) :
  Page.num_ge m Page.two_and_a_half = true -> Page.num_ge m Page.two = true.
Proof.
  destruct m as [|neg|neg ds n]; [discriminate | destruct neg; trivial |].
  unfold Page.two_and_a_half, Page.two. rewrite !num_ge_whole. cbv zeta.
  change (Page.exponent (lit "25") 1) with (-1)%Z.
  change (Page.exponent (lit "2") 1) with 0%Z.
  change (Page.mantissa (lit "25")) with 25%Z.
  change (Page.mantissa (lit "2")) with 2%Z.
  rewrite ge_whole_cases, ge_tenths_cases.
  pose proof (Z.pow_nonneg 10 (-1 - Page.exponent ds n) ltac:(lia)). lia.
Qed.

End ColourFacts.

(** X19: the table and the map colour a record by its ML magnitude [m]
    on two different scales. Without a magnitude, or with a zero or
    [NaN] one, the table cell has no class and the marker is green; from
    5.0 on both are red; from 3.0 to 5.0 the cell is orange and the
    marker red; from 2.5 to 3.0 the cell is yellow and the marker orange;
    from 2.0 to 2.5 both are yellow; below 2.0 both are green. *)
Theorem X19_table_and_map_colour_scales (e : Earthquake) :
  let class := Page.getMagnitudeClass (magnitudeML e) in
  let colour := Page.marker_color e in
  let ge t := match magnitudeML e with
              | Some m => Page.truthy m && Page.num_ge m t
              | None => false
              end in
  let falsy := match magnitudeML e with
               | Some m => negb (Page.truthy m)
               | None => true
               end in
  (falsy = true /\ class = [] /\ colour = lit "#22c55e")
  \/ (ge Page.five = true
      /\ class = lit "text-red-600 font-bold" /\ colour = lit "#ef4444")
  \/ (ge Page.five = false /\ ge Page.three = true
      /\ class = lit "text-orange-600 font-semibold" /\ colour = lit "#ef4444")
  \/ (ge Page.three = false /\ ge Page.two_and_a_half = true
      /\ class = lit "text-yellow-600" /\ colour = lit "#f97316")
  \/ (ge Page.two_and_a_half = false /\ ge Page.two = true
      /\ class = lit "text-yellow-600" /\ colour = lit "#eab308")
  \/ (falsy = false /\ ge Page.two = false
      /\ class = lit "text-green-600" /\ colour = lit "#22c55e").
Proof.
  cbv zeta. unfold Page.marker_color, Page.marker_magnitude, Page.getMagnitudeClass.
  destruct (magnitudeML e) as [m|]; [|left; repeat split].
  destruct (Page.truthy m) eqn:Tm; [|left; repeat split].
  right. cbn [negb andb]. unfold Page.getColorByMagnitude.
  destruct (Page.num_ge m Page.five) eqn:G5.
  { left. rewrite (ge_five_three m G5). repeat split. }
  right. destruct (Page.num_ge m Page.three) eqn:G3.
  { left. repeat split. }
  right. destruct (Page.num_ge m Page.two_and_a_half) eqn:G25.
  { left. rewrite (ge_tenths_two m G25). repeat split. }
  right. destruct (Page.num_ge m Page.two) eqn:G2.
  { left. repeat split. }
  right. repeat split.
Qed.

(** X20: every record of the client-side parser comes from a candidate
    line of the text with at least ten tokens, and carries the tokens of
    that line in their columns: the first two as date and time, the next
    three read as numbers, the next three as magnitudes, the last one as
    the quality code, and the id made of date, time, latitude and
    longitude. A line of fewer than ten tokens never shows in the
    result. *)
Theorem X20_client_records_carry_the_columns
  (rawText : jsstring) (c : Earthquake) :
  In c (Client.parseEarthquakeData rawText) ->
  exists line,
    let parts := split_ws (trim line) in
    In line (candidate_lines rawText)
    /\ (10 <= length parts)%nat
    /\ Client.line_record line = Some c
    /\ date c = at_ parts 0 /\ time c = at_ parts 1
    /\ latitude c = parseFloat (at_ parts 2)
    /\ longitude c = parseFloat (at_ parts 3)
    /\ depth c = parseFloat (at_ parts 4)
    /\ magnitudeMD c = magnitude (at_ parts 5)
    /\ magnitudeML c = magnitude (at_ parts 6)
    /\ magnitudeMw c = magnitude (at_ parts 7)
    /\ solutionQuality c = at_ parts (length parts - 1)
    /\ id c = make_id (date c) (time c) (latitude c) (longitude c).
Proof.
  rewrite client_parse_emitted. intros H.
  apply emitted_In in H as (line & Hl & H).
  exists line. cbv zeta.
  destruct (Nat.ltb_spec (length (split_ws (trim line))) 10) as [S | S];
    [destruct (short_line_skipped line S) as [X _]; congruence|].
  pose proof H as H'.
  rewrite (client_line_record_unfold line _ eq_refl S) in H'.
  injection H' as <-.
  assert (Q : trim (at_ (split_ws (trim line))
                      (length (split_ws (trim line)) - 1))
              = at_ (split_ws (trim line)) (length (split_ws (trim line)) - 1)).
  { apply trim_ws_free, (split_ws_token_ws_free (trim line)).
    unfold at_. apply nth_In. lia. }
  unfold record_of. cbn [date time latitude longitude depth magnitudeMD
    magnitudeML magnitudeMw solutionQuality id].
  repeat split; try assumption.
Qed.

Lemma X20_client_records_witness :
  exists line,
    let parts := split_ws (trim line) in
    In line (candidate_lines sample_line)
    /\ (10 <= length parts)%nat
    /\ Client.line_record line = Some sample_record
    /\ date sample_record = at_ parts 0 /\ time sample_record = at_ parts 1
    /\ latitude sample_record = parseFloat (at_ parts 2)
    /\ longitude sample_record = parseFloat (at_ parts 3)
    /\ depth sample_record = parseFloat (at_ parts 4)
    /\ magnitudeMD sample_record = magnitude (at_ parts 5)
    /\ magnitudeML sample_record = magnitude (at_ parts 6)
    /\ magnitudeMw sample_record = magnitude (at_ parts 7)
    /\ solutionQuality sample_record = at_ parts (length parts - 1)
    /\ id sample_record
       = make_id (date sample_record) (time sample_record)
           (latitude sample_record) (longitude sample_record).
Proof.
  exact (X20_client_records_carry_the_columns sample_line sample_record
           (or_introl eq_refl)).
Defined.

(* ===================================================================== *)
(** * The header-anchored scan *)
(* ===================================================================== *)

Section HeaderScan.













End HeaderScan.



(** The scan at work: after the title "Date ... Time" it selects the data
    line, and the loop returns its record. *)
Example header_scan_selects_the_line :
  let text := lit "Date       Time" ++ [LF] ++ sample_line in
  Locator.header_anchored_scan text = [sample_line]
  /\ Server.alternate_scan text Server.alternateHeaders
     = Some [server_sample_record].
Proof. split; vm_compute; reflexivity. Qed.
